(** * get_correlations: pairwise correlation statistics over a DataFrame

    A shallow embedding of [get_correlations] and [plot_correlations] from
    [src/gperdrizet_functions.py].

    Python floats are IEEE-754 binary64 numbers, modelled by Rocq's primitive
    floats.  Python objects that the function shares with its caller (the
    DataFrame, the accumulator dictionary and the lists it maps to) live in
    an explicit store; a Python reference is a location of that store.
    SciPy's [pearsonr] and [spearmanr] are library code, and so is the power
    [**] of the float that they return: they are the operations of the
    interface [SciPyStats]. *)

From Stdlib Require Import PrimFloat.
From stdpp Require Import gmap strings list.

Open Scope string_scope.
Open Scope list_scope.

(** ** Values, objects and the store *)

(** A reference is a position in the store. *)
Abbreviation loc := nat (only parsing).

(** What a result column holds: feature names and statistics. *)
Inductive value :=
| VStr (s : string)
| VFloat (x : float).

(** A DataFrame: its column labels ([df.columns]) and its rows
    ([df.values]), every row holding one float per column, in the order of
    the labels.  A missing entry is NaN, as in a pandas float column.

    The frames of the model are those whose column labels are distinct: a
    label then names one column, and [df[[a, b]]] has the two named columns
    and no other.  (On a repeated label pandas selects every column that
    carries it.)  The theorems that say which entries a label selects state
    this as [NoDup (columns df)]. *)
Record DataFrame := mkFrame {
  columns : list string;
  values : list (list float)
}.

Inductive obj :=
| OList (xs : list value)
| ODict (d : gmap string loc)
| OFrame (f : DataFrame).

Abbreviation heap := (list obj) (only parsing).

Inductive exn :=
| KeyError (keys : list string)
| TypeError
| ValueError.

Inductive result (A : Type) :=
| Ok (a : A)
| Raise (e : exn).
Arguments Ok {A} a.
Arguments Raise {A} e.

(** ** The store-and-exception monad

    A raised exception keeps the store as it is at that point: what was
    mutated before the exception stays mutated. *)

Definition M (A : Type) : Type := heap -> result A * heap.

Definition ret {A} (a : A) : M A := fun h => (Ok a, h).

Definition bind {A B} (m : M A) (k : A -> M B) : M B :=
  fun h => match m h with
           | (Ok a, h') => k a h'
           | (Raise e, h') => (Raise e, h')
           end.

Definition raise {A} (e : exn) : M A := fun h => (Raise e, h).

Definition lift {A} (r : result A) : M A := fun h => (r, h).

Declare Scope py_scope.
Delimit Scope py_scope with py.
Notation "'let*' x := m 'in' k" := (bind m (fun x => k))
  (at level 10, x name, m at level 100, k at level 200) : py_scope.
Notation "m >> k" := (bind m (fun _ => k))
  (at level 100, k at level 200, right associativity) : py_scope.
Open Scope py_scope.

(** [for x in xs: body x] *)
Fixpoint for_each {A} (xs : list A) (body : A -> M unit) : M unit :=
  match xs with
  | [] => ret tt
  | x :: xs' => body x >> for_each xs' body
  end.

(** A new object gets the next free location. *)
Definition alloc (o : obj) : M loc := fun h => (Ok (length h), h ++ [o]).

Definition load (l : loc) : M obj :=
  fun h => match h !! l with
           | Some o => (Ok o, h)
           | None => (Raise TypeError, h)
           end.

Definition store (l : loc) (o : obj) : M unit :=
  fun h => (Ok tt, <[l := o]> h).

(** ** Dictionaries and lists *)

(** [d[k]] on a dictionary: [KeyError] when the key is absent. *)
Definition dict_getitem (d : loc) (k : string) : M loc :=
  let* o := load d in
  match o with
  | ODict m => match m !! k with
               | Some l => ret l
               | None => raise (KeyError [k])
               end
  | _ => raise TypeError
  end.

(** [l.append(v)]: the list object at [l] is updated in place. *)
Definition list_append (l : loc) (v : value) : M unit :=
  let* o := load l in
  match o with
  | OList xs => store l (OList (xs ++ [v]))
  | _ => raise TypeError
  end.

(** ** DataFrames *)

Definition isna (x : float) : bool := negb (PrimFloat.eqb x x).

Definition isinf (x : float) : bool :=
  PrimFloat.eqb x infinity || PrimFloat.eqb x neg_infinity.

Fixpoint get_loc (name : string) (labels : list string) : option nat :=
  match labels with
  | [] => None
  | l :: ls => if String.eqb name l then Some 0
               else option_map S (get_loc name ls)
  end.

(** The entry of [row] under the label [name], the labels being distinct. *)
Definition at_label (labels : list string) (row : list float)
    (name : string) : float :=
  match get_loc name labels with
  | Some i => nth i row nan
  | None => nan
  end.

Definition absent (labels : list string) (name : string) : bool :=
  match get_loc name labels with Some _ => false | None => true end.

(** [df[names]] with a list of labels, on a frame with distinct labels: a
    new frame with these columns; [KeyError] with the labels that are not in
    [df.columns]. *)
Definition getitem (df : DataFrame) (names : list string) : result DataFrame :=
  match List.filter (absent (columns df)) names with
  | [] => Ok (mkFrame names
                (map (fun row => map (at_label (columns df) row) names)
                     (values df)))
  | missing => Raise (KeyError missing)
  end.

(** [dropna]: keep the rows without a missing entry. *)
Definition dropna (df : DataFrame) : DataFrame :=
  mkFrame (columns df)
          (List.filter (fun row => forallb (fun x => negb (isna x)) row)
                       (values df)).

(** [replace([np.inf, -np.inf], np.nan)] *)
Definition replace_inf_value (x : float) : float :=
  if isinf x then nan else x.

Definition replace_inf (df : DataFrame) : DataFrame :=
  mkFrame (columns df) (map (map replace_inf_value) (values df)).

(** [df.iloc[:, j]] as an array *)
Definition iloc (df : DataFrame) (j : nat) : list float :=
  map (fun row => nth j row nan) (values df).

Definition load_frame (l : loc) : M DataFrame :=
  let* o := load l in
  match o with
  | OFrame f => ret f
  | _ => raise TypeError
  end.

(** [df[[a, b]]]: the selection is a new frame object. *)
Definition frame_getitem (df : loc) (names : list string) : M loc :=
  let* f := load_frame df in
  let* f' := lift (getitem f names) in
  alloc (OFrame f').

(** [df.dropna()]: the result is a new frame object. *)
Definition frame_dropna (df : loc) : M loc :=
  let* f := load_frame df in
  alloc (OFrame (dropna f)).

(** [df.replace([np.inf, -np.inf], np.nan, inplace=True)] *)
Definition frame_replace_inplace (df : loc) : M unit :=
  let* f := load_frame df in
  store df (OFrame (replace_inf f)).

(** [df.dropna(inplace=True)] *)
Definition frame_dropna_inplace (df : loc) : M unit :=
  let* f := load_frame df in
  store df (OFrame (dropna f)).

Definition frame_iloc (df : loc) (j : nat) : M (list float) :=
  let* f := load_frame df in
  ret (iloc f j).

(** ** The statistics library *)

Record StatResult := mkStat {
  statistic : float;
  pvalue : float
}.

(** [scipy.stats.pearsonr] and [scipy.stats.spearmanr]: functions of the two
    arrays that return a result or raise.  [float_pow x y] is [x ** y] on the
    float that they return as statistic: the power of the C library, which
    is not the float product [x * x] at [y = 2] (the two may differ in the
    last bit). *)
Class SciPyStats := {
  pearsonr : list float -> list float -> result StatResult;
  spearmanr : list float -> list float -> result StatResult;
  float_pow : float -> float -> float
}.

(** ** get_correlations *)

Definition field_names : list string :=
  ["Feature 1"; "Feature 2"; "Absolute Spearman"; "Spearman";
   "Spearman p-value"; "Absolute Pearson"; "Pearson"; "Pearson p-value";
   "Pearson r-squared"].

(** The dictionary literal of lines 17-27: nine new empty lists, then the
    dictionary that maps the nine keys to them. *)
Definition empty_correlations : M loc :=
  let* l1 := alloc (OList []) in
  let* l2 := alloc (OList []) in
  let* l3 := alloc (OList []) in
  let* l4 := alloc (OList []) in
  let* l5 := alloc (OList []) in
  let* l6 := alloc (OList []) in
  let* l7 := alloc (OList []) in
  let* l8 := alloc (OList []) in
  let* l9 := alloc (OList []) in
  alloc (ODict (list_to_map
    [("Feature 1", l1); ("Feature 2", l2); ("Absolute Spearman", l3);
     ("Spearman", l4); ("Spearman p-value", l5); ("Absolute Pearson", l6);
     ("Pearson", l7); ("Pearson p-value", l8); ("Pearson r-squared", l9)])).

(** [correlations[k].append(v)] *)
Definition append_to (correlations : loc) (k : string) (v : value) : M unit :=
  let* l := dict_getitem correlations k in
  list_append l v.

Section GetCorrelations.
Context `{SciPyStats}.

(** Lines 46-55: one value appended to each of the nine columns. *)
Definition collect_results (correlations : loc)
    (feature_pair : string * string) (src pcc : StatResult) : M unit :=
  append_to correlations "Feature 1" (VStr (fst feature_pair)) >>
  append_to correlations "Feature 2" (VStr (snd feature_pair)) >>
  append_to correlations "Absolute Spearman"
            (VFloat (PrimFloat.abs (statistic src))) >>
  append_to correlations "Spearman" (VFloat (statistic src)) >>
  append_to correlations "Spearman p-value" (VFloat (pvalue src)) >>
  append_to correlations "Absolute Pearson" (VFloat (statistic pcc)) >>
  append_to correlations "Pearson" (VFloat (statistic pcc)) >>
  append_to correlations "Pearson p-value" (VFloat (pvalue pcc)) >>
  append_to correlations "Pearson r-squared"
            (VFloat (float_pow (statistic pcc) 2)).

(** The body of the loop, lines 32-55. *)
Definition process_pair (df correlations : loc)
    (feature_pair : string * string) : M unit :=
  if negb (String.eqb (fst feature_pair) (snd feature_pair)) then
    let* selected := frame_getitem df [fst feature_pair; snd feature_pair] in
    let* feature_pair_data := frame_dropna selected in
    frame_replace_inplace feature_pair_data >>
    frame_dropna_inplace feature_pair_data >>
    let* x := frame_iloc feature_pair_data 0 in
    let* y := frame_iloc feature_pair_data 1 in
    let* pcc := lift (pearsonr x y) in
    let* x := frame_iloc feature_pair_data 0 in
    let* y := frame_iloc feature_pair_data 1 in
    let* src := lift (spearmanr x y) in
    collect_results correlations feature_pair src pcc
  else ret tt.

Definition get_correlations (feature_pairs : list (string * string))
    (df : loc) (correlations : option loc) : M loc :=
  let* correlations :=
    match correlations with
    | None => empty_correlations
    | Some c => ret c
    end in
  for_each feature_pairs (process_pair df correlations) >>
  ret correlations.

End GetCorrelations.

(** ** Reading a result table out of the store *)

(** The list object that the dictionary at [t] maps [k] to. *)
Definition column_loc (h : heap) (t : loc) (k : string) : option loc :=
  match h !! t with
  | Some (ODict d) => d !! k
  | _ => None
  end.

(** The contents of column [k] of the table at [t]. *)
Definition column (h : heap) (t : loc) (k : string) : option (list value) :=
  match column_loc h t k with
  | Some l => match h !! l with
              | Some (OList xs) => Some xs
              | _ => None
              end
  | None => None
  end.

(** The cleaning of lines 36-40 applied to the selected columns. *)
Definition clean (selected : DataFrame) : DataFrame :=
  dropna (replace_inf (dropna selected)).

(** A value that is neither missing nor infinite. *)
Definition finite (x : float) : bool := negb (isna x) && negb (isinf x).

(** * plot_correlations

    The figure and its axes are the objects that [plot_correlations]
    creates and draws on; the dataset is only read.  A figure is modelled
    by what has been drawn on it.  [scipy.stats.linregress],
    [scipy.stats.kurtosis] and [numpy.linspace] are library code: the
    operations of the interface [PlotLibs]. *)

Inductive scale := Linear | Log.

(** One call of [ax.scatter(x, y, s=..., color=...)]. *)
Record Scatter := mkScatter {
  scatter_x : list float;
  scatter_y : list float;
  scatter_s : float;
  scatter_color : string
}.

(** One call of [ax.plot(x, y, color=...)]. *)
Record Line := mkLine {
  line_x : list float;
  line_y : list float;
  line_color : string
}.

Record Axes := mkAxes {
  collections : list Scatter;
  lines : list Line;
  xlabel : string;
  ylabel : string;
  xscale : scale;
  yscale : scale
}.

(** The axes of a figure in the order of [axs.flat]. *)
Record Figure := mkFigure {
  figsize : nat * nat;
  suptitle : option string;
  axes : list Axes;
  tight : bool
}.

(** New axes: nothing drawn, no labels, linear scales. *)
Definition new_axes : Axes := mkAxes [] [] "" "" Linear Linear.

(** [plt.subplots(nrows, ncols, figsize=...)] *)
Definition subplots (nrows ncols : nat) (size : nat * nat) : Figure :=
  mkFigure size None (replicate (nrows * ncols) new_axes) false.

(** The figure-and-exception monad: an exception leaves the figure as it
    has been drawn so far. *)
Definition Plot (A : Type) : Type := Figure -> result A * Figure.

Definition plot_ret {A} (a : A) : Plot A := fun fig => (Ok a, fig).

Definition plot_bind {A B} (m : Plot A) (k : A -> Plot B) : Plot B :=
  fun fig => match m fig with
             | (Ok a, fig') => k a fig'
             | (Raise e, fig') => (Raise e, fig')
             end.

Definition plot_lift {A} (r : result A) : Plot A := fun fig => (r, fig).

Declare Scope plot_scope.
Delimit Scope plot_scope with plot.
Notation "'let*' x := m 'in' k" := (plot_bind m (fun x => k))
  (at level 10, x name, m at level 100, k at level 200) : plot_scope.
Notation "m >> k" := (plot_bind m (fun _ => k))
  (at level 100, k at level 200, right associativity) : plot_scope.

Fixpoint plot_for_each {A} (xs : list A) (body : A -> Plot unit)
    : Plot unit :=
  match xs with
  | [] => plot_ret tt
  | x :: xs' => (body x >> plot_for_each xs' body)%plot
  end.

(** A method of the axes [ax] that updates it. *)
Definition on_axes (ax : nat) (g : Axes -> Axes) : Plot unit :=
  fun fig => (Ok tt, mkFigure (figsize fig) (suptitle fig)
                       (alter g ax (axes fig)) (tight fig)).

Definition ax_scatter (ax : nat) (x y : list float) (s : float)
    (color : string) : Plot unit :=
  on_axes ax (fun a => mkAxes (collections a ++ [mkScatter x y s color])
                         (lines a) (xlabel a) (ylabel a) (xscale a) (yscale a)).

Definition ax_plot (ax : nat) (x y : list float) (color : string)
    : Plot unit :=
  on_axes ax (fun a => mkAxes (collections a) (lines a ++ [mkLine x y color])
                         (xlabel a) (ylabel a) (xscale a) (yscale a)).

Definition ax_set_xlabel (ax : nat) (label : string) : Plot unit :=
  on_axes ax (fun a => mkAxes (collections a) (lines a) label (ylabel a)
                         (xscale a) (yscale a)).

Definition ax_set_ylabel (ax : nat) (label : string) : Plot unit :=
  on_axes ax (fun a => mkAxes (collections a) (lines a) (xlabel a) label
                         (xscale a) (yscale a)).

Definition ax_set_xscale (ax : nat) (sc : scale) : Plot unit :=
  on_axes ax (fun a => mkAxes (collections a) (lines a) (xlabel a) (ylabel a)
                         sc (yscale a)).

Definition ax_set_yscale (ax : nat) (sc : scale) : Plot unit :=
  on_axes ax (fun a => mkAxes (collections a) (lines a) (xlabel a) (ylabel a)
                         (xscale a) sc).

Definition fig_suptitle (title : string) : Plot unit :=
  fun fig => (Ok tt, mkFigure (figsize fig) (Some title) (axes fig) (tight fig)).

Definition fig_tight_layout : Plot unit :=
  fun fig => (Ok tt, mkFigure (figsize fig) (suptitle fig) (axes fig) true).

(** Python's [min] and [max] over the values of a series: the first value
    is kept until a later one compares smaller (greater); an empty series
    raises [ValueError]. *)
Definition py_min (xs : list float) : result float :=
  match xs with
  | [] => Raise ValueError
  | x :: rest =>
      Ok (fold_left (fun m y => if PrimFloat.ltb y m then y else m) rest x)
  end.

Definition py_max (xs : list float) : result float :=
  match xs with
  | [] => Raise ValueError
  | x :: rest =>
      Ok (fold_left (fun m y => if PrimFloat.ltb m y then y else m) rest x)
  end.

(** [df[name]] with one label, on a frame with distinct labels: the column
    as a series. *)
Definition getitem_column (df : DataFrame) (name : string)
    : result (list float) :=
  if absent (columns df) name then Raise (KeyError [name])
  else Ok (map (fun row => at_label (columns df) row name) (values df)).

(** [dropna] on a series *)
Definition series_dropna (xs : list float) : list float :=
  List.filter (fun x => negb (isna x)) xs.

Record LinregressResult := mkRegression {
  slope : float;
  intercept : float
}.

Class PlotLibs := {
  linregress : list float -> list float -> result LinregressResult;
  linspace : float -> float -> list float;
  kurtosis : list float -> float
}.

Section PlotCorrelations.
Context `{PlotLibs}.

(** The body of the loop, lines 70-86, for the axes [ax] and a row of
    [correlations_df], of which the entries 'Feature 1' and 'Feature 2'
    are read. *)
Definition plot_pair (data_df : DataFrame) (ax_row : nat * (string * string))
    : Plot unit :=
  (let ax := fst ax_row in
   let row := snd ax_row in
   let* selected := plot_lift (getitem data_df [fst row; snd row]) in
   let feature_pair_data := dropna selected in
   let* regression :=
     plot_lift (linregress (iloc feature_pair_data 0)
                           (iloc feature_pair_data 1)) in
   let* lo := plot_lift (py_min (iloc feature_pair_data 0)) in
   let* hi := plot_lift (py_max (iloc feature_pair_data 0)) in
   let regression_x := linspace lo hi in
   let regression_y :=
     map (fun x => slope regression * x + intercept regression)%float
         regression_x in
   let* x := plot_lift (getitem_column data_df (fst row)) in
   let* y := plot_lift (getitem_column data_df (snd row)) in
   ax_scatter ax x y 0x1.999999999999ap-3%float "black" >>
   ax_plot ax regression_x regression_y "red" >>
   ax_set_xlabel ax (fst row) >>
   ax_set_ylabel ax (snd row) >>
   let* x := plot_lift (getitem_column data_df (fst row)) in
   (if PrimFloat.ltb 40 (kurtosis (series_dropna x))
    then ax_set_xscale ax Log else plot_ret tt) >>
   let* y := plot_lift (getitem_column data_df (snd row)) in
   (if PrimFloat.ltb 40 (kurtosis (series_dropna y))
    then ax_set_yscale ax Log else plot_ret tt))%plot.

(** [plot_correlations]: the outcome and the figure as drawn; the figure is
    what the function returns when it returns. *)
Definition plot_correlations (data_df : DataFrame)
    (correlations_df : list (string * string)) : result unit * Figure :=
  (fig_suptitle "Feature cross-correlations" >>
   plot_for_each (zip (seq 0 (3 * 5)) correlations_df) (plot_pair data_df) >>
   fig_tight_layout)%plot
    (subplots 3 5 (11, 7)).

End PlotCorrelations.

(** * Definitions used to state the properties *)

(** ** Records and columns *)

(** The fields of one record, in the order in which lines 47-55 append
    them. *)
Definition record_fields `{SciPyStats} (feature_pair : string * string)
    (src pcc : StatResult) : list (string * value) :=
  [("Feature 1", VStr (fst feature_pair));
   ("Feature 2", VStr (snd feature_pair));
   ("Absolute Spearman", VFloat (PrimFloat.abs (statistic src)));
   ("Spearman", VFloat (statistic src));
   ("Spearman p-value", VFloat (pvalue src));
   ("Absolute Pearson", VFloat (statistic pcc));
   ("Pearson", VFloat (statistic pcc));
   ("Pearson p-value", VFloat (pvalue pcc));
   ("Pearson r-squared", VFloat (float_pow (statistic pcc) 2))].

(** The appends of lines 47-55 as one loop over the fields of the record. *)
Definition append_all (t : loc) (kvs : list (string * value)) : M unit :=
  for_each kvs (fun kv => append_to t (fst kv) (snd kv)).

(** The values of [kvs] that go to the list object [l]. *)
Definition appended (h : heap) (t l : loc) (kvs : list (string * value))
    : list value :=
  map snd (List.filter
             (fun kv => bool_decide (column_loc h t (fst kv) = Some l)) kvs).

(** The values that [kvs] holds under the key [k]. *)
Definition cell (k : string) (kvs : list (string * value)) : list value :=
  map snd (List.filter (fun kv => String.eqb (fst kv) k) kvs).

(** ** Well-formed tables

    A table is well formed when its nine keys map to nine distinct list
    objects of one common length: what [empty_correlations] builds and what
    [get_correlations] returns. *)

Definition table_wf (h : heap) (t : loc) : Prop :=
  NoDup (map (column_loc h t) field_names) /\
  exists n, Forall (fun k => exists xs, column h t k = Some xs /\ length xs = n)
                   field_names.

(** ** The fresh table *)

(** The dictionary that [empty_correlations] builds in a store of [n]
    objects: the nine new lists are the objects [n] to [n + 8]. *)
Definition fresh_dict (n : nat) : gmap string nat :=
  list_to_map
    [("Feature 1", n); ("Feature 2", n + 1); ("Absolute Spearman", n + 2);
     ("Spearman", n + 3); ("Spearman p-value", n + 4);
     ("Absolute Pearson", n + 5); ("Pearson", n + 6);
     ("Pearson p-value", n + 7); ("Pearson r-squared", n + 8)].

(** The store after [empty_correlations]; the table is at [length h + 9]. *)
Definition fresh_table (h : heap) : heap :=
  h ++ replicate 9 (OList []) ++ [ODict (fresh_dict (length h))].

(** ** Pairs and their data *)

(** The test of line 33. *)
Definition nonself (p : string * string) : bool :=
  negb (String.eqb (fst p) (snd p)).

(** The two named columns of [f], side by side: what [df[[a, b]]] holds. *)
Definition selection (f : DataFrame) (p : string * string) : DataFrame :=
  mkFrame [fst p; snd p]
    (map (fun row => [at_label (columns f) row (fst p);
                      at_label (columns f) row (snd p)]) (values f)).

(** Both names of the pair are columns of [f]. *)
Definition present (f : DataFrame) (p : string * string) : Prop :=
  absent (columns f) (fst p) = false /\ absent (columns f) (snd p) = false.

#[global] Instance present_dec f p : Decision (present f p).
Proof. unfold present. apply _. Defined.

(** [feature_pair_data] after line 40. *)
Definition pair_data (f : DataFrame) (p : string * string) : DataFrame :=
  clean (selection f p).

(** The entries of the two columns of the pair, row by row. *)
Definition paired (f : DataFrame) (p : string * string)
    : list (float * float) :=
  map (fun row => (at_label (columns f) row (fst p),
                   at_label (columns f) row (snd p))) (values f).

(** The complete cases of the pair: the rows in which neither of the two
    values is missing. *)
Definition complete_cases (f : DataFrame) (p : string * string)
    : list (float * float) :=
  List.filter (fun r => negb (isna (fst r)) && negb (isna (snd r)))
              (paired f p).

(** The complete cases in which neither value is infinite. *)
Definition finite_cases (f : DataFrame) (p : string * string)
    : list (float * float) :=
  List.filter (fun r => negb (isinf (fst r)) && negb (isinf (snd r)))
              (complete_cases f p).

(** The dataset [f] with every row removed in which a column of the pair
    holds an infinite value. *)
Definition without_inf_rows (f : DataFrame) (p : string * string)
    : DataFrame :=
  mkFrame (columns f)
    (List.filter
       (fun row => negb (isinf (at_label (columns f) row (fst p)))
                   && negb (isinf (at_label (columns f) row (snd p))))
       (values f)).

Section Records.
Context `{SciPyStats}.

(** The record that lines 36-55 append for the pair [p], or the exception
    that they raise before the first append. *)
Definition pair_record (f : DataFrame) (p : string * string)
    : result (list (string * value)) :=
  match getitem f [fst p; snd p] with
  | Raise e => Raise e
  | Ok sel =>
      match pearsonr (iloc (clean sel) 0) (iloc (clean sel) 1) with
      | Raise e => Raise e
      | Ok pcc =>
          match spearmanr (iloc (clean sel) 0) (iloc (clean sel) 1) with
          | Raise e => Raise e
          | Ok src => Ok (record_fields p src pcc)
          end
      end
  end.

(** The statistics library returns on the cleaned data of the pair. *)
Definition stats_return (f : DataFrame) (p : string * string) : Prop :=
  exists pcc src,
    pearsonr (iloc (pair_data f p) 0) (iloc (pair_data f p) 1) = Ok pcc /\
    spearmanr (iloc (pair_data f p) 0) (iloc (pair_data f p) 1) = Ok src.

(** What the pairs [ps] add to column [k]. *)
Definition rows_of (f : DataFrame) (k : string)
    (ps : list (string * string)) : list value :=
  flat_map (fun p => match pair_record f p with
                     | Ok r => cell k r
                     | Raise _ => []
                     end) (List.filter nonself ps).

(** A pair that is processed has both its names in the dataset and
    statistics that the library returns. *)
Definition valid (f : DataFrame) (p : string * string) : Prop :=
  nonself p = true -> present f p /\ stats_return f p.

End Records.

(** The contents of column [k] of the accumulator that is passed in: empty
    when the call starts from a fresh table. *)
Definition prior (h : heap) (correlations : option loc) (k : string)
    : list value :=
  match correlations with
  | Some t => default [] (column h t k)
  | None => []
  end.

(** ** Relations between stores *)

(** From [h] to [h']: the table at [t] keeps its columns, and an object of
    [h] is either untouched or a column list of [t] that got values at its
    end. *)
Definition evolves (t : loc) (h h' : heap) : Prop :=
  (forall k, column_loc h' t k = column_loc h t k) /\
  (forall l o, h !! l = Some o ->
     h' !! l = Some o \/
     exists k xs ys, k ∈ field_names /\ column_loc h t k = Some l /\
                     o = OList xs /\ h' !! l = Some (OList (xs ++ ys))).

(** Two stores of the same size that hold the same lists and dictionaries
    at the same places, and frames at the same places. *)
Definition agree (h1 h2 : heap) : Prop :=
  length h1 = length h2 /\
  forall l, match h1 !! l, h2 !! l with
            | Some (OFrame _), Some (OFrame _) => True
            | o1, o2 => o1 = o2
            end.

(** ** Example data *)

(** A stand-in for [scipy.stats] to run examples with: it answers [pcc] and
    [src] whatever the arrays hold, its [pearsonr] refuses arrays of fewer
    than two values, as SciPy's does, and its power is the float product
    for every exponent (the examples use the exponent 2 only). *)
Definition stub_stats (pcc src : StatResult) : SciPyStats :=
  {| pearsonr x _ := if Nat.ltb (length x) 2 then Raise ValueError else Ok pcc;
     spearmanr _ _ := Ok src;
     float_pow x _ := (x * x)%float |}.

(** X = [1,2,3,4,5], Y = [2,4,6,8,10] *)
Definition linear_df : DataFrame :=
  mkFrame ["X"; "Y"] [[1; 2]; [2; 4]; [3; 6]; [4; 8]; [5; 10]]%float.

(** A = [1,2,3], B = [3,2,1] *)
Definition falling_df : DataFrame :=
  mkFrame ["A"; "B"] [[1; 3]; [2; 2]; [3; 1]]%float.

(** A = [1, nan, 3, 4], B = [2, 4, nan, 8], C = [nan, 1, 1, 1] *)
Definition gappy_df : DataFrame :=
  mkFrame ["A"; "B"; "C"]
    [[1; 2; nan]; [nan; 4; 1]; [3; nan; 1]; [4; 8; 1]]%float.

(** A = [1,2,3,inf,5], B = [2,4,6,8,10] *)
Definition inf_df : DataFrame :=
  mkFrame ["A"; "B"]
    [[1; 2]; [2; 4]; [3; 6]; [infinity; 8]; [5; 10]]%float.


(** X = [1,2,3], Y = [2,4,6], Z = [nan,nan,5] *)
Definition sparse_df : DataFrame :=
  mkFrame ["X"; "Y"; "Z"] [[1; 2; nan]; [2; 4; nan]; [3; 6; 5]]%float.

(** ** What a row draws *)

(** What lines 70-86 draw for one row: the scatter, the regression line and
    whether each axis goes to the log scale. *)
Record Drawing := mkDrawing {
  drawn_scatter : Scatter;
  drawn_line : Line;
  log_x : bool;
  log_y : bool
}.

(** The axes [a] after the drawing for [row] has been put on it. *)
Definition apply_drawing (row : string * string) (d : Drawing) (a : Axes)
    : Axes :=
  mkAxes (collections a ++ [drawn_scatter d]) (lines a ++ [drawn_line d])
    (fst row) (snd row)
    (if log_x d then Log else xscale a)
    (if log_y d then Log else yscale a).

Section Drawings.
Context `{PlotLibs}.

(** The drawing that the loop body computes for [row], or the exception
    that it raises before it draws. *)
Definition drawing (data_df : DataFrame) (row : string * string)
    : result Drawing :=
  match getitem data_df [fst row; snd row] with
  | Raise e => Raise e
  | Ok selected =>
      match linregress (iloc (dropna selected) 0) (iloc (dropna selected) 1) with
      | Raise e => Raise e
      | Ok regression =>
          match py_min (iloc (dropna selected) 0) with
          | Raise e => Raise e
          | Ok lo =>
              match py_max (iloc (dropna selected) 0) with
              | Raise e => Raise e
              | Ok hi =>
                  match getitem_column data_df (fst row) with
                  | Raise e => Raise e
                  | Ok x =>
                      match getitem_column data_df (snd row) with
                      | Raise e => Raise e
                      | Ok y =>
                          Ok (mkDrawing
                                (mkScatter x y 0x1.999999999999ap-3%float "black")
                                (mkLine (linspace lo hi)
                                   (map (fun x => slope regression * x
                                                  + intercept regression)%float
                                        (linspace lo hi)) "red")
                                (PrimFloat.ltb 40 (kurtosis (series_dropna x)))
                                (PrimFloat.ltb 40 (kurtosis (series_dropna y))))
                      end
                  end
              end
          end
      end
  end.

End Drawings.

(** A stand-in for the libraries of [plot_correlations] to run examples
    with: its [linregress] answers [reg] and refuses arrays of fewer than
    two values, its [linspace] gives the two end points, its [kurtosis] is
    [k] whatever the array holds. *)
Definition stub_plot (reg : LinregressResult) (k : float) : PlotLibs :=
  {| linregress x _ :=
       if Nat.ltb (length x) 2 then Raise ValueError else Ok reg;
     linspace lo hi := [lo; hi];
     kurtosis _ := k |}.

(** A = [1, nan], B = [nan, 2]: no row is complete. *)
Definition disjoint_df : DataFrame :=
  mkFrame ["A"; "B"] [[1; nan]; [nan; 2]]%float.

(** * Lemmas *)

(** ** The store: lookups after allocation and update *)

Lemma lookup_alloc_new (h : heap) (o : obj) : (h ++ [o]) !! length h = Some o.
Proof. by apply list_lookup_middle. Qed.

Lemma insert_alloc_new (h : heap) (o o' : obj) :
  <[length h := o']> (h ++ [o]) = h ++ [o'].
Proof.
  rewrite insert_app_r_alt by lia. by rewrite Nat.sub_diag.
Qed.

Lemma bind_ok {A B} (m : M A) (k : A -> M B) h a h' :
  m h = (Ok a, h') -> bind m k h = k a h'.
Proof. unfold bind. by intros ->. Qed.

Lemma bind_raise {A B} (m : M A) (k : A -> M B) h e h' :
  m h = (Raise e, h') -> bind m k h = (Raise e, h').
Proof. unfold bind. by intros ->. Qed.

Lemma bind_lift_ok {A B} (a : A) (k : A -> M B) h :
  bind (lift (Ok a)) k h = k a h.
Proof. reflexivity. Qed.

Lemma for_each_app {A} (xs ys : list A) (body : A -> M unit) h :
  for_each (xs ++ ys) body h = (for_each xs body >> for_each ys body) h.
Proof.
  revert h. induction xs as [|x xs IH]; intros h; simpl.
  - reflexivity.
  - unfold bind in *. destruct (body x h) as [[[]|e] h']; [apply IH | reflexivity].
Qed.

(** ** Cleaning a frame *)

Lemma isna_replace_inf_value x :
  isna (replace_inf_value x) = isna x || isinf x.
Proof.
  unfold replace_inf_value. destruct (isinf x).
  - by rewrite orb_true_r.
  - by rewrite orb_false_r.
Qed.

Lemma replace_inf_value_finite x :
  finite x = true -> replace_inf_value x = x.
Proof.
  unfold finite, replace_inf_value. destruct (isinf x); [|done].
  rewrite andb_false_r. discriminate.
Qed.

Lemma forallb_notna_replace row :
  forallb (fun x => negb (isna x)) (map replace_inf_value row)
  = forallb finite row.
Proof.
  induction row as [|x row IH]; simpl; [done|].
  rewrite IH, isna_replace_inf_value, negb_orb. done.
Qed.

Lemma replace_finite_row row :
  forallb finite row = true -> map replace_inf_value row = row.
Proof.
  induction row as [|x row IH]; simpl; [done|].
  intros [Hx Hrow]%andb_true_iff.
  by rewrite replace_inf_value_finite, IH.
Qed.

Lemma forallb_finite_notna row :
  forallb finite row = true -> forallb (fun x => negb (isna x)) row = true.
Proof.
  induction row as [|x row IH]; simpl; [done|].
  unfold finite at 1.
  intros [[Hx _]%andb_true_iff Hrow]%andb_true_iff.
  by rewrite Hx, IH.
Qed.

(** Replacing the infinite values by NaN between two [dropna] keeps exactly
    the rows whose entries are all present and finite, unchanged. *)
Lemma clean_values f :
  values (clean f) = List.filter (forallb finite) (values f).
Proof.
  unfold clean, dropna, replace_inf. simpl.
  induction (values f) as [|row rows IH]; simpl; [done|].
  destruct (forallb (fun x => negb (isna x)) row) eqn:Hna; simpl.
  - rewrite forallb_notna_replace.
    destruct (forallb finite row) eqn:Hfin.
    + by rewrite replace_finite_row, IH.
    + apply IH.
  - destruct (forallb finite row) eqn:Hfin; [|apply IH].
    apply forallb_finite_notna in Hfin. congruence.
Qed.

Lemma getitem_pair f a b :
  getitem f [a; b] =
  if absent (columns f) a || absent (columns f) b
  then Raise (KeyError (List.filter (absent (columns f)) [a; b]))
  else Ok (mkFrame [a; b]
             (map (fun row => [at_label (columns f) row a;
                               at_label (columns f) row b]) (values f))).
Proof.
  unfold getitem. simpl.
  destruct (absent (columns f) a), (absent (columns f) b); reflexivity.
Qed.

(** ** Frame operations on the store *)

Lemma load_frame_ok l f h :
  h !! l = Some (OFrame f) -> load_frame l h = (Ok f, h).
Proof. intros Hl. unfold load_frame, load, bind. by rewrite Hl. Qed.

Lemma load_frame_raise l h :
  (forall f, h !! l <> Some (OFrame f)) -> load_frame l h = (Raise TypeError, h).
Proof.
  intros Hl. unfold load_frame, load, bind.
  destruct (h !! l) as [[xs|d|f]|]; try done. by destruct (Hl f).
Qed.

Lemma frame_getitem_ok df f names sel h :
  h !! df = Some (OFrame f) -> getitem f names = Ok sel ->
  frame_getitem df names h = (Ok (length h), h ++ [OFrame sel]).
Proof.
  intros Hdf Hsel. unfold frame_getitem.
  rewrite (bind_ok _ _ _ _ _ (load_frame_ok _ _ _ Hdf)).
  unfold bind, lift. by rewrite Hsel.
Qed.

Lemma frame_getitem_raise df f names e h :
  h !! df = Some (OFrame f) -> getitem f names = Raise e ->
  frame_getitem df names h = (Raise e, h).
Proof.
  intros Hdf Hsel. unfold frame_getitem.
  rewrite (bind_ok _ _ _ _ _ (load_frame_ok _ _ _ Hdf)).
  unfold bind, lift. by rewrite Hsel.
Qed.

Lemma frame_dropna_ok l f h :
  h !! l = Some (OFrame f) ->
  frame_dropna l h = (Ok (length h), h ++ [OFrame (dropna f)]).
Proof.
  intros Hl. unfold frame_dropna.
  by rewrite (bind_ok _ _ _ _ _ (load_frame_ok _ _ _ Hl)).
Qed.

Lemma frame_replace_inplace_ok l f h :
  h !! l = Some (OFrame f) ->
  frame_replace_inplace l h = (Ok tt, <[l := OFrame (replace_inf f)]> h).
Proof.
  intros Hl. unfold frame_replace_inplace.
  by rewrite (bind_ok _ _ _ _ _ (load_frame_ok _ _ _ Hl)).
Qed.

Lemma frame_dropna_inplace_ok l f h :
  h !! l = Some (OFrame f) ->
  frame_dropna_inplace l h = (Ok tt, <[l := OFrame (dropna f)]> h).
Proof.
  intros Hl. unfold frame_dropna_inplace.
  by rewrite (bind_ok _ _ _ _ _ (load_frame_ok _ _ _ Hl)).
Qed.

Lemma frame_iloc_ok l f j h :
  h !! l = Some (OFrame f) -> frame_iloc l j h = (Ok (iloc f j), h).
Proof.
  intros Hl. unfold frame_iloc.
  by rewrite (bind_ok _ _ _ _ _ (load_frame_ok _ _ _ Hl)).
Qed.

(** ** One pair *)

Section ProcessPair.
Context `{SciPyStats}.

Lemma process_pair_self df t a h : process_pair df t (a, a) h = (Ok tt, h).
Proof. unfold process_pair. simpl. by rewrite String.eqb_refl. Qed.

(** Lines 36-44 on a store that holds the frame [f] at [df]: two frame
    objects are allocated, the selection and its cleaned copy, and the
    statistics are taken from the cleaned copy. *)
Lemma process_pair_frame df t a b f h :
  h !! df = Some (OFrame f) -> a <> b ->
  process_pair df t (a, b) h =
  match getitem f [a; b] with
  | Raise e => (Raise e, h)
  | Ok sel =>
      (let* pcc := lift (pearsonr (iloc (clean sel) 0) (iloc (clean sel) 1)) in
       let* src := lift (spearmanr (iloc (clean sel) 0) (iloc (clean sel) 1)) in
       collect_results t (a, b) src pcc)
        (h ++ [OFrame sel; OFrame (clean sel)])
  end.
Proof.
  intros Hdf Hab. unfold process_pair. cbn [fst snd].
  apply String.eqb_neq in Hab. rewrite Hab. cbn [negb].
  destruct (getitem f [a; b]) as [sel|e] eqn:Hsel.
  2: { erewrite bind_raise; [done|]. by apply frame_getitem_raise with f. }
  erewrite bind_ok by (by apply frame_getitem_ok with f).
  erewrite bind_ok by (apply frame_dropna_ok, lookup_alloc_new).
  erewrite bind_ok by (apply frame_replace_inplace_ok, lookup_alloc_new).
  rewrite insert_alloc_new.
  erewrite bind_ok by (apply frame_dropna_inplace_ok, lookup_alloc_new).
  rewrite insert_alloc_new. fold (clean sel).
  erewrite bind_ok by (apply frame_iloc_ok, lookup_alloc_new).
  erewrite bind_ok by (apply frame_iloc_ok, lookup_alloc_new).
  rewrite <- app_assoc. simpl app.
  assert (Hd : (h ++ [OFrame sel; OFrame (clean sel)]) !! length (h ++ [OFrame sel])
               = Some (OFrame (clean sel))).
  { change (h ++ [OFrame sel; OFrame (clean sel)])
      with (h ++ [OFrame sel] ++ [OFrame (clean sel)]).
    rewrite app_assoc. apply lookup_alloc_new. }
  destruct (pearsonr _ _) as [pcc|e]; [|done].
  rewrite !bind_lift_ok.
  erewrite bind_ok by (by apply frame_iloc_ok).
  erewrite bind_ok by (by apply frame_iloc_ok).
  reflexivity.
Qed.

Lemma process_pair_no_frame df t a b h :
  (forall f, h !! df <> Some (OFrame f)) -> a <> b ->
  process_pair df t (a, b) h = (Raise TypeError, h).
Proof.
  intros Hdf Hab. unfold process_pair. cbn [fst snd].
  apply String.eqb_neq in Hab. rewrite Hab. cbn [negb].
  erewrite bind_raise; [done|]. unfold frame_getitem.
  erewrite bind_raise; [done|]. by apply load_frame_raise.
Qed.

End ProcessPair.

(** ** Appending to the columns of a table *)

Lemma collect_results_fields `{SciPyStats} t p src pcc h :
  collect_results t p src pcc h = append_all t (record_fields p src pcc) h.
Proof.
  unfold collect_results, append_all, record_fields, for_each.
  cbn [fst snd]. unfold bind, ret.
  repeat match goal with
         | |- context [append_to ?t ?k ?v ?h] =>
             destruct (append_to t k v h) as [[[]|?] ?]; [|reflexivity]
         end.
  reflexivity.
Qed.

Lemma append_to_ok t k v l xs h :
  column_loc h t k = Some l -> h !! l = Some (OList xs) ->
  append_to t k v h = (Ok tt, <[l := OList (xs ++ [v])]> h).
Proof.
  unfold column_loc, append_to, dict_getitem, list_append, load, store, bind.
  intros Hk Hl. destruct (h !! t) as [[?|d|?]|]; try done.
  rewrite Hk. unfold ret. by rewrite Hl.
Qed.


Lemma column_loc_insert_list h t l xs ys k :
  h !! l = Some (OList xs) ->
  column_loc (<[l := OList ys]> h) t k = column_loc h t k.
Proof.
  intros Hl. unfold column_loc. destruct (decide (t = l)) as [->|Hne].
  - rewrite list_lookup_insert_eq by (by eapply lookup_lt_Some).
    by rewrite Hl.
  - by rewrite list_lookup_insert_ne.
Qed.

Lemma append_all_ok t kvs : forall h,
  (forall k, k ∈ map fst kvs -> is_Some (column h t k)) ->
  exists h',
    append_all t kvs h = (Ok tt, h') /\
    (forall k, column_loc h' t k = column_loc h t k) /\
    (forall l, h' !! l =
               match h !! l with
               | Some (OList xs) => Some (OList (xs ++ appended h t l kvs))
               | o => o
               end).
Proof.
  induction kvs as [|[k v] kvs IH]; intros h Hcols.
  - exists h. split; [done|]. split; [done|]. intros l. unfold appended. simpl.
    destruct (h !! l) as [[xs| |]|]; try done. by rewrite app_nil_r.
  - destruct (Hcols k) as [xs0 Hk]; [simpl; left|].
    unfold column in Hk. destruct (column_loc h t k) as [l0|] eqn:Hl0; [|done].
    destruct (h !! l0) as [[ys0| |]|] eqn:Hys0; try done.
    set (h1 := <[l0 := OList (ys0 ++ [v])]> h).
    assert (Hloc1 : forall k', column_loc h1 t k' = column_loc h t k')
      by (intros k'; by eapply column_loc_insert_list).
    destruct (IH h1) as (h' & Hrun & Hloc & Hobj).
    { intros k' Hk'. destruct (Hcols k') as [xs' Hxs']; [simpl; by right|].
      unfold column in *. rewrite Hloc1.
      destruct (column_loc h t k') as [l'|]; [|done].
      unfold h1. destruct (decide (l0 = l')) as [<-|Hne].
      - rewrite list_lookup_insert_eq by (by eapply lookup_lt_Some). eauto.
      - rewrite list_lookup_insert_ne by done. eauto. }
    exists h'. split; [|split].
    + unfold append_all in *. simpl.
      erewrite bind_ok by (by eapply append_to_ok). exact Hrun.
    + intros k'. by rewrite Hloc, Hloc1.
    + intros l. rewrite Hobj. unfold appended. simpl.
      assert (Heq : forall kvs',
        List.filter (fun kv : string * value =>
                       bool_decide (column_loc h1 t (fst kv) = Some l)) kvs'
        = List.filter (fun kv : string * value =>
                         bool_decide (column_loc h t (fst kv) = Some l)) kvs').
      { intros kvs'. apply filter_ext. intros kv. by rewrite Hloc1. }
      rewrite Heq. unfold h1. destruct (decide (l0 = l)) as [<-|Hne].
      * rewrite list_lookup_insert_eq by (by eapply lookup_lt_Some).
        rewrite Hys0, Hl0, bool_decide_eq_true_2 by done. simpl.
        by rewrite <- app_assoc.
      * rewrite list_lookup_insert_ne by done.
        rewrite bool_decide_eq_false_2 by congruence. done.
Qed.

Lemma table_wf_column h t k :
  table_wf h t -> k ∈ field_names -> is_Some (column h t k).
Proof.
  intros [_ [n Hn]] Hk. rewrite Forall_forall in Hn.
  destruct (Hn k Hk) as (xs & Hxs & _). eauto.
Qed.

Lemma column_Some_loc h t k xs :
  column h t k = Some xs ->
  exists l, column_loc h t k = Some l /\ h !! l = Some (OList xs).
Proof.
  unfold column. destruct (column_loc h t k) as [l|]; [|done].
  destruct (h !! l) as [[ys| |]|] eqn:E; try done.
  intros [= ->]. eauto.
Qed.

Lemma NoDup_map_inj {A B} (f : A -> B) (l : list A) x y :
  NoDup (map f l) -> x ∈ l -> y ∈ l -> f x = f y -> x = y.
Proof.
  induction l as [|a l IH]; simpl; intros Hnd Hx Hy Hxy.
  - by apply elem_of_nil in Hx.
  - apply NoDup_cons in Hnd as [Ha Hnd].
    apply elem_of_cons in Hx as [->|Hx], Hy as [->|Hy]; auto.
    + destruct Ha. rewrite Hxy. apply list_elem_of_In, in_map.
      by apply list_elem_of_In.
    + destruct Ha. rewrite <- Hxy. apply list_elem_of_In, in_map.
      by apply list_elem_of_In.
Qed.

Lemma appended_cell h t k l kvs :
  NoDup (map (column_loc h t) field_names) ->
  k ∈ field_names -> column_loc h t k = Some l ->
  Forall (fun kv => fst kv ∈ field_names) kvs ->
  appended h t l kvs = cell k kvs.
Proof.
  intros Hnd Hk Hl Hkvs. unfold appended, cell. f_equal.
  induction Hkvs as [|[k' v] kvs Hk' _ IH]; simpl; [done|].
  rewrite IH. destruct (String.eqb_spec k' k) as [->|Hne].
  - by rewrite bool_decide_eq_true_2.
  - rewrite bool_decide_eq_false_2; [done|].
    intros Hl'. apply Hne.
    apply (NoDup_map_inj (column_loc h t) field_names); [done..|congruence].
Qed.

Lemma appended_nil h t l kvs :
  (forall k, k ∈ map fst kvs -> column_loc h t k <> Some l) ->
  appended h t l kvs = [].
Proof.
  unfold appended. induction kvs as [|[k v] kvs IH]; simpl; intros Hl; [done|].
  rewrite bool_decide_eq_false_2 by (apply Hl; simpl; left).
  apply IH. intros k' Hk'. apply Hl. simpl. by right.
Qed.

Lemma record_fields_keys `{SciPyStats} p src pcc :
  map fst (record_fields p src pcc) = field_names.
Proof. reflexivity. Qed.

Lemma record_fields_in `{SciPyStats} p src pcc :
  Forall (fun kv => fst kv ∈ field_names) (record_fields p src pcc).
Proof.
  apply Forall_forall. intros kv Hkv.
  rewrite <- (record_fields_keys p src pcc).
  apply list_elem_of_In, in_map. by apply list_elem_of_In.
Qed.

(** Membership of a literal key in [field_names]. *)
Ltac field_in := apply list_elem_of_In; simpl; tauto.

(** Each of the nine keys occurs once in a record. *)
Lemma cell_record_fields `{SciPyStats} k p src pcc :
  k ∈ field_names -> length (cell k (record_fields p src pcc)) = 1.
Proof.
  unfold field_names. rewrite !elem_of_cons, elem_of_nil.
  intros Hk. repeat destruct Hk as [->|Hk]; [reflexivity..|done].
Qed.

(** Appending one record to a well-formed table: every column gets its own
    value at the end, and nothing else in the store changes. *)
Lemma append_record_wf `{SciPyStats} t p src pcc h :
  table_wf h t ->
  exists h',
    append_all t (record_fields p src pcc) h = (Ok tt, h') /\
    (forall k, column_loc h' t k = column_loc h t k) /\
    (forall k xs, k ∈ field_names -> column h t k = Some xs ->
       column h' t k = Some (xs ++ cell k (record_fields p src pcc))) /\
    (forall l, (forall k, k ∈ field_names -> column_loc h t k <> Some l) ->
       h' !! l = h !! l) /\
    table_wf h' t.
Proof.
  intros Hwf.
  destruct (append_all_ok t (record_fields p src pcc) h) as (h' & Hrun & Hloc & Hobj).
  { rewrite record_fields_keys. intros k Hk. by apply table_wf_column. }
  assert (Hcol : forall k xs, k ∈ field_names -> column h t k = Some xs ->
            column h' t k = Some (xs ++ cell k (record_fields p src pcc))).
  { intros k xs Hk Hxs. apply column_Some_loc in Hxs as (l & Hl & Hxs).
    unfold column. rewrite Hloc, Hl, Hobj, Hxs.
    erewrite appended_cell; eauto using record_fields_in. by destruct Hwf. }
  exists h'. repeat split; try done.
  - intros l Hl. rewrite Hobj, appended_nil.
    + destruct (h !! l) as [[xs| |]|]; try done. by rewrite app_nil_r.
    + rewrite record_fields_keys. done.
  - destruct Hwf as [Hnd _].
    erewrite map_ext; [exact Hnd|]. intros k. by rewrite Hloc.
  - destruct Hwf as [_ [n Hn]]. exists (n + 1).
    rewrite Forall_forall in *. intros k Hk.
    destruct (Hn k Hk) as (xs & Hxs & Hlen).
    eexists. split; [by apply Hcol|].
    rewrite length_app, cell_record_fields by done. lia.
Qed.

(** ** Allocation leaves tables alone *)

Lemma lookup_app_plus (h X : heap) i : (h ++ X) !! (length h + i) = X !! i.
Proof. rewrite lookup_app_r by lia. f_equal. lia. Qed.

Lemma column_loc_app h X t k l :
  column_loc h t k = Some l -> column_loc (h ++ X) t k = Some l.
Proof.
  unfold column_loc. destruct (h !! t) as [o|] eqn:Ht; [|done].
  by rewrite (lookup_app_l_Some _ _ _ _ Ht).
Qed.

Lemma column_app h X t k xs :
  column h t k = Some xs -> column (h ++ X) t k = Some xs.
Proof.
  intros (l & Hl & Hxs)%column_Some_loc. unfold column.
  rewrite (column_loc_app _ X _ _ _ Hl).
  by rewrite (lookup_app_l_Some _ _ _ _ Hxs).
Qed.

Lemma table_wf_app h X t : table_wf h t -> table_wf (h ++ X) t.
Proof.
  intros Hwf. split.
  - destruct Hwf as [Hnd Hn] eqn:E. clear E.
    erewrite map_ext_in; [exact Hnd|]. intros k Hk%list_elem_of_In.
    destruct (table_wf_column h t k) as [xs Hxs]; [split; done|done|].
    apply column_Some_loc in Hxs as (l & Hl & _).
    rewrite Hl. by apply column_loc_app.
  - destruct Hwf as [_ [n Hn]]. exists n.
    eapply Forall_impl; [exact Hn|]. simpl.
    intros k (xs & Hxs & Hlen). exists xs. split; [|done]. by apply column_app.
Qed.

(** ** The fresh table: lemmas *)

Lemma empty_correlations_eq h :
  empty_correlations h = (Ok (length h + 9), fresh_table h).
Proof.
  unfold empty_correlations, fresh_table, fresh_dict, alloc, bind.
  rewrite !length_app. simpl length. rewrite <- !app_assoc. simpl app.
  rewrite <- !Nat.add_assoc. simpl Nat.add. reflexivity.
Qed.

Lemma fresh_dict_lookup n :
  map (fun k => fresh_dict n !! k) field_names
  = map (fun i => Some (n + i)) (seq 0 9).
Proof.
  simpl. rewrite Nat.add_0_r. unfold fresh_dict. simpl list_to_map.
  repeat (f_equal; [by simplify_map_eq|]). done.
Qed.

Lemma fresh_table_column_loc h :
  map (column_loc (fresh_table h) (length h + 9)) field_names
  = map (fun i => Some (length h + i)) (seq 0 9).
Proof.
  rewrite <- fresh_dict_lookup. apply map_ext. intros k.
  unfold column_loc, fresh_table. by rewrite lookup_app_plus.
Qed.

Lemma fresh_table_column h k :
  k ∈ field_names -> column (fresh_table h) (length h + 9) k = Some [].
Proof.
  intros Hk. pose proof (fresh_table_column_loc h) as Hloc.
  unfold field_names in Hk. rewrite !elem_of_cons, elem_of_nil in Hk.
  simpl in Hloc. injection Hloc as H1 H2 H3 H4 H5 H6 H7 H8 H9.
  unfold column.
  repeat destruct Hk as [->|Hk]; try done;
    rewrite ?H1, ?H2, ?H3, ?H4, ?H5, ?H6, ?H7, ?H8, ?H9;
    unfold fresh_table; by rewrite lookup_app_plus.
Qed.

Lemma NoDup_map_offset n (l : list nat) :
  NoDup l -> NoDup (map (fun i => Some (n + i)) l).
Proof.
  induction 1 as [|i l Hi Hl IH]; simpl; constructor; [|done].
  intros (j & Hj & Hin)%list_elem_of_In%in_map_iff.
  assert (j = i) as -> by (injection Hj; lia).
  by apply Hi, list_elem_of_In.
Qed.

Lemma fresh_table_wf h : table_wf (fresh_table h) (length h + 9).
Proof.
  split.
  - rewrite fresh_table_column_loc. apply NoDup_map_offset, NoDup_seq.
  - exists 0. apply Forall_forall. intros k Hk. exists [].
    split; [by apply fresh_table_column|done].
Qed.

(** ** The loop over the pairs *)

Lemma getitem_present f p :
  present f p -> getitem f [fst p; snd p] = Ok (selection f p).
Proof. intros [Ha Hb]. by rewrite getitem_pair, Ha, Hb. Qed.

Lemma getitem_not_present f p :
  ~ present f p ->
  getitem f [fst p; snd p]
  = Raise (KeyError (List.filter (absent (columns f)) [fst p; snd p])).
Proof.
  intros Hp. rewrite getitem_pair. unfold present in Hp.
  destruct (absent (columns f) p.1), (absent (columns f) p.2); try done.
  by destruct Hp.
Qed.

Section Loop.
Context `{SciPyStats}.

Lemma pair_record_ok f p :
  present f p -> stats_return f p ->
  exists pcc src,
    pearsonr (iloc (pair_data f p) 0) (iloc (pair_data f p) 1) = Ok pcc /\
    spearmanr (iloc (pair_data f p) 0) (iloc (pair_data f p) 1) = Ok src /\
    pair_record f p = Ok (record_fields p src pcc).
Proof.
  intros Hp (pcc & src & Hpcc & Hsrc). exists pcc, src.
  split; [done|]. split; [done|]. unfold pair_record.
  rewrite getitem_present by done. fold (pair_data f p).
  by rewrite Hpcc, Hsrc.
Qed.

Lemma pair_record_shape f p r :
  pair_record f p = Ok r -> exists src pcc, r = record_fields p src pcc.
Proof.
  unfold pair_record. destruct (getitem _ _); [|done].
  destruct (pearsonr _ _) as [pcc|]; [|done].
  destruct (spearmanr _ _) as [src|]; [|done].
  intros [= <-]. eauto.
Qed.

Lemma process_pair_record df t p f h :
  h !! df = Some (OFrame f) -> nonself p = true ->
  process_pair df t p h =
  match pair_record f p with
  | Ok r => append_all t r (h ++ [OFrame (selection f p); OFrame (pair_data f p)])
  | Raise e =>
      (Raise e, if decide (present f p)
                then h ++ [OFrame (selection f p); OFrame (pair_data f p)]
                else h)
  end.
Proof.
  intros Hdf Hp. destruct p as [a b]. unfold nonself in Hp. simpl in Hp.
  assert (Hab : a <> b).
  { intros ->. by rewrite String.eqb_refl in Hp. }
  rewrite (process_pair_frame df t a b f h Hdf Hab). unfold pair_record.
  destruct (decide (present f (a, b))) as [Hpr|Hpr].
  - pose proof (getitem_present f (a, b) Hpr) as Hg. cbn [fst snd] in *.
    rewrite Hg. fold (pair_data f (a, b)).
    destruct (pearsonr _ _) as [pcc|e]; [|done]. rewrite bind_lift_ok.
    destruct (spearmanr _ _) as [src|e]; [|done]. rewrite bind_lift_ok.
    apply collect_results_fields.
  - pose proof (getitem_not_present f (a, b) Hpr) as Hg. cbn [fst snd] in *.
    by rewrite Hg.
Qed.

Lemma process_pair_ok df t p f r h :
  h !! df = Some (OFrame f) -> table_wf h t -> nonself p = true ->
  pair_record f p = Ok r ->
  exists h',
    process_pair df t p h = (Ok tt, h') /\
    h' !! df = Some (OFrame f) /\
    table_wf h' t /\
    (forall k xs, k ∈ field_names -> column h t k = Some xs ->
       column h' t k = Some (xs ++ cell k r)).
Proof.
  intros Hdf Hwf Hp Hr.
  rewrite (process_pair_record df t p f h Hdf Hp), Hr.
  destruct (pair_record_shape f p r Hr) as (src & pcc & ->).
  set (h1 := h ++ [OFrame (selection f p); OFrame (pair_data f p)]).
  assert (Hwf1 : table_wf h1 t) by by apply table_wf_app.
  destruct (append_record_wf t p src pcc h1 Hwf1)
    as (h' & Hrun & Hloc & Hcol & Hother & Hwf').
  exists h'. split; [done|]. split; [|split; [done|]].
  - rewrite Hother; [by apply lookup_app_l_Some|].
    intros k Hk Hl. destruct (table_wf_column h1 t k Hwf1 Hk) as [xs Hxs].
    apply column_Some_loc in Hxs as (l & Hl' & Hxs).
    rewrite Hl in Hl'. injection Hl' as <-.
    unfold h1 in Hxs. rewrite (lookup_app_l_Some _ _ _ _ Hdf) in Hxs. done.
  - intros k xs Hk Hxs. apply Hcol; [done|]. by apply column_app.
Qed.

End Loop.

Section Run.
Context `{SciPyStats}.

Lemma process_pair_skip df t p h :
  nonself p = false -> process_pair df t p h = (Ok tt, h).
Proof.
  intros Hp. unfold process_pair.
  change (negb (fst p =? snd p)) with (nonself p). by rewrite Hp.
Qed.

Lemma nonself_neq p : nonself p = true -> fst p <> snd p.
Proof.
  unfold nonself. intros Hp Heq. by rewrite Heq, String.eqb_refl in Hp.
Qed.

Lemma rows_of_skip f k p ps :
  nonself p = false -> rows_of f k (p :: ps) = rows_of f k ps.
Proof. intros Hp. unfold rows_of. simpl. by rewrite Hp. Qed.

Lemma rows_of_cons f k p ps r :
  nonself p = true -> pair_record f p = Ok r ->
  rows_of f k (p :: ps) = cell k r ++ rows_of f k ps.
Proof. intros Hp Hr. unfold rows_of. simpl. rewrite Hp. simpl. by rewrite Hr. Qed.

Lemma rows_of_none f k ps : List.filter nonself ps = [] -> rows_of f k ps = [].
Proof. intros Hps. unfold rows_of. by rewrite Hps. Qed.

(** Every pair that is processed has a record: the run returns, the table
    stays well formed and every column grows by the rows of the pairs. *)
Lemma for_each_ok df t f ps : forall h,
  h !! df = Some (OFrame f) -> table_wf h t ->
  Forall (fun p => nonself p = true -> exists r, pair_record f p = Ok r) ps ->
  exists h',
    for_each ps (process_pair df t) h = (Ok tt, h') /\
    h' !! df = Some (OFrame f) /\
    table_wf h' t /\
    (forall k xs, k ∈ field_names -> column h t k = Some xs ->
       column h' t k = Some (xs ++ rows_of f k ps)).
Proof.
  induction ps as [|p ps IH]; intros h Hdf Hwf Hps.
  - exists h. do 3 (split; [done|]). intros k xs _ Hxs.
    by rewrite rows_of_none, app_nil_r.
  - apply Forall_cons in Hps as [Hp Hps]. simpl.
    destruct (nonself p) eqn:Hns.
    + destruct Hp as [r Hr]; [done|].
      destruct (process_pair_ok df t p f r h Hdf Hwf Hns Hr)
        as (h1 & Hrun1 & Hdf1 & Hwf1 & Hcol1).
      destruct (IH h1 Hdf1 Hwf1 Hps) as (h' & Hrun & Hdf' & Hwf' & Hcol).
      exists h'. rewrite (bind_ok _ _ _ _ _ Hrun1).
      do 3 (split; [done|]). intros k xs Hk Hxs.
      rewrite (rows_of_cons f k p ps r Hns Hr), app_assoc. auto.
    + destruct (IH h Hdf Hwf Hps) as (h' & Hrun & Hdf' & Hwf' & Hcol).
      exists h'. rewrite (bind_ok _ _ _ _ _ (process_pair_skip df t p h Hns)).
      do 3 (split; [done|]). intros k xs Hk Hxs.
      rewrite (rows_of_skip f k p ps Hns). auto.
Qed.

Lemma for_each_frame_success df t f ps : forall h h',
  h !! df = Some (OFrame f) -> table_wf h t ->
  for_each ps (process_pair df t) h = (Ok tt, h') ->
  Forall (fun p => nonself p = true -> exists r, pair_record f p = Ok r) ps.
Proof.
  induction ps as [|p ps IH]; intros h h' Hdf Hwf Hrun; [constructor|].
  simpl in Hrun. destruct (nonself p) eqn:Hns.
  - destruct (pair_record f p) as [r|e] eqn:Hr.
    + destruct (process_pair_ok df t p f r h Hdf Hwf Hns Hr)
        as (h1 & Hrun1 & Hdf1 & Hwf1 & _).
      rewrite (bind_ok _ _ _ _ _ Hrun1) in Hrun.
      constructor; [eauto|]. by apply (IH h1 h').
    + erewrite bind_raise in Hrun; [done|].
      by rewrite (process_pair_record df t p f h Hdf Hns), Hr.
  - rewrite (bind_ok _ _ _ _ _ (process_pair_skip df t p h Hns)) in Hrun.
    constructor; [congruence|]. by apply (IH h h').
Qed.

Lemma for_each_no_frame_success df t ps : forall h h',
  (forall f, h !! df <> Some (OFrame f)) ->
  for_each ps (process_pair df t) h = (Ok tt, h') ->
  List.filter nonself ps = [] /\ h' = h.
Proof.
  induction ps as [|[a b] ps IH]; intros h h' Hdf Hrun; simpl in Hrun.
  - unfold ret in Hrun. by injection Hrun as <-.
  - simpl. destruct (nonself (a, b)) eqn:Hns.
    + rewrite (bind_raise _ _ h TypeError h) in Hrun; [done|].
      apply process_pair_no_frame; [done|]. by apply (nonself_neq (a, b)).
    + rewrite (bind_ok _ _ _ _ _ (process_pair_skip df t _ h Hns)) in Hrun.
      by apply IH.
Qed.

(** A run of the loop that returns, read backwards. *)
Lemma for_each_success df t ps h h' :
  table_wf h t ->
  for_each ps (process_pair df t) h = (Ok tt, h') ->
  exists f,
    table_wf h' t /\
    (forall k xs, k ∈ field_names -> column h t k = Some xs ->
       column h' t k = Some (xs ++ rows_of f k ps)).
Proof.
  intros Hwf Hrun. destruct (h !! df) as [o|] eqn:Hdf.
  1: destruct o as [xs|d|f].
  3: { exists f.
       pose proof (for_each_frame_success df t f ps h h' Hdf Hwf Hrun) as Hps.
       destruct (for_each_ok df t f ps h Hdf Hwf Hps)
         as (h'' & Hrun' & _ & Hwf' & Hcol).
       rewrite Hrun in Hrun'. injection Hrun' as <-. done. }
  all: exists (mkFrame [] []);
    destruct (for_each_no_frame_success df t ps h h') as [Hps ->];
    [by rewrite Hdf|done|];
    split; [done|]; intros k ys _ Hys;
    by rewrite rows_of_none, app_nil_r.
Qed.

End Run.

(** ** Whole calls *)

Section Calls.
Context `{SciPyStats}.

Lemma get_correlations_some ps df t h :
  get_correlations ps df (Some t) h =
  match for_each ps (process_pair df t) h with
  | (Ok _, h') => (Ok t, h')
  | (Raise e, h') => (Raise e, h')
  end.
Proof. reflexivity. Qed.

Lemma get_correlations_none ps df h :
  get_correlations ps df None h =
  get_correlations ps df (Some (length h + 9)) (fresh_table h).
Proof.
  unfold get_correlations. unfold bind at 1 3.
  by rewrite empty_correlations_eq.
Qed.

Lemma valid_record f ps :
  Forall (valid f) ps ->
  Forall (fun p => nonself p = true -> exists r, pair_record f p = Ok r) ps.
Proof.
  intros Hps. eapply Forall_impl; [exact Hps|].
  intros p Hv Hns. destruct (Hv Hns) as [Hp Hs].
  destruct (pair_record_ok f p Hp Hs) as (pcc & src & _ & _ & Hr). eauto.
Qed.

Lemma get_correlations_ok ps df acc f h :
  h !! df = Some (OFrame f) ->
  (forall t, acc = Some t -> table_wf h t) ->
  Forall (valid f) ps ->
  exists t h',
    get_correlations ps df acc h = (Ok t, h') /\
    t = default (length h + 9) acc /\
    h' !! df = Some (OFrame f) /\
    table_wf h' t /\
    (forall k, k ∈ field_names ->
       column h' t k = Some (prior h acc k ++ rows_of f k ps)).
Proof.
  intros Hdf Hacc Hps%valid_record. destruct acc as [t|].
  - destruct (for_each_ok df t f ps h Hdf (Hacc t eq_refl) Hps)
      as (h' & Hrun & Hdf' & Hwf' & Hcol).
    exists t, h'. rewrite get_correlations_some, Hrun.
    do 4 (split; [done|]).
    intros k Hk.
    destruct (table_wf_column h t k (Hacc t eq_refl) Hk) as [xs Hxs].
    simpl. rewrite Hxs. simpl. by apply Hcol.
  - pose proof (fresh_table_wf h) as Hwf.
    assert (Hdf1 : fresh_table h !! df = Some (OFrame f))
      by by apply lookup_app_l_Some.
    destruct (for_each_ok df _ f ps _ Hdf1 Hwf Hps)
      as (h' & Hrun & Hdf' & Hwf' & Hcol).
    exists (length h + 9), h'.
    rewrite get_correlations_none, get_correlations_some, Hrun.
    do 4 (split; [done|]).
    intros k Hk. simpl. apply (Hcol k []); [done|]. by apply fresh_table_column.
Qed.

(** When every pair that is processed has a record, each of them adds one
    value to every column. *)
Lemma rows_of_record_length f k ps :
  Forall (fun p => nonself p = true -> exists r, pair_record f p = Ok r) ps ->
  k ∈ field_names ->
  length (rows_of f k ps) = length (List.filter nonself ps).
Proof.
  intros Hps Hk.
  induction Hps as [|p ps Hp _ IH]; [done|].
  simpl. destruct (nonself p) eqn:Hns.
  - destruct (Hp eq_refl) as [r Hr]. rewrite (rows_of_cons f k p ps r Hns Hr).
    destruct (pair_record_shape f p r Hr) as (src & pcc & ->).
    rewrite length_app, cell_record_fields by done. simpl. by rewrite IH.
  - by rewrite rows_of_skip.
Qed.

Lemma rows_of_record_features f ps :
  Forall (fun p => nonself p = true -> exists r, pair_record f p = Ok r) ps ->
  rows_of f "Feature 1" ps = map (fun p => VStr (fst p)) (List.filter nonself ps) /\
  rows_of f "Feature 2" ps = map (fun p => VStr (snd p)) (List.filter nonself ps).
Proof.
  intros Hps.
  induction Hps as [|p ps Hp _ [IH1 IH2]]; [done|].
  simpl. destruct (nonself p) eqn:Hns.
  - destruct (Hp eq_refl) as [r Hr].
    rewrite !(rows_of_cons f _ p ps r Hns Hr).
    destruct (pair_record_shape f p r Hr) as (src & pcc & ->).
    simpl. by rewrite IH1, IH2.
  - by rewrite !rows_of_skip.
Qed.

Lemma rows_of_length f k ps :
  Forall (valid f) ps -> k ∈ field_names ->
  length (rows_of f k ps) = length (List.filter nonself ps).
Proof. intros Hps%valid_record. by apply rows_of_record_length. Qed.

Lemma rows_of_features f ps :
  Forall (valid f) ps ->
  rows_of f "Feature 1" ps = map (fun p => VStr (fst p)) (List.filter nonself ps) /\
  rows_of f "Feature 2" ps = map (fun p => VStr (snd p)) (List.filter nonself ps).
Proof. intros Hps%valid_record. by apply rows_of_record_features. Qed.

(** A call on a well-formed accumulator that returns, read backwards: every
    pair that was processed has a record, and every column is its former
    contents followed by the rows of the pairs. *)
Lemma get_correlations_rows pairs df t f h t' h' :
  h !! df = Some (OFrame f) -> table_wf h t ->
  get_correlations pairs df (Some t) h = (Ok t', h') ->
  Forall (fun p => nonself p = true -> exists r, pair_record f p = Ok r) pairs /\
  table_wf h' t /\
  (forall k xs, k ∈ field_names -> column h t k = Some xs ->
     column h' t k = Some (xs ++ rows_of f k pairs)).
Proof.
  intros Hdf Hwf Hrun. rewrite get_correlations_some in Hrun.
  destruct (for_each _ _ h) as [[[]|e] h1] eqn:Hloop; [|done].
  injection Hrun as _ <-.
  pose proof (for_each_frame_success df t f pairs h h1 Hdf Hwf Hloop) as Hps.
  destruct (for_each_ok df t f pairs h Hdf Hwf Hps)
    as (h'' & Hrun' & _ & Hwf' & Hcol).
  rewrite Hloop in Hrun'. injection Hrun' as <-. done.
Qed.

End Calls.

Section Inversion.
Context `{SciPyStats}.

(** A call that returns, read backwards: the table is the accumulator (or
    the fresh table), and every column is its former contents followed by
    the rows of the pairs. *)
Lemma get_correlations_success pairs df acc h t h' :
  (forall t0, acc = Some t0 -> table_wf h t0) ->
  get_correlations pairs df acc h = (Ok t, h') ->
  exists f,
    t = default (length h + 9) acc /\
    table_wf h' t /\
    (forall k, k ∈ field_names ->
       column h' t k = Some (prior h acc k ++ rows_of f k pairs)).
Proof.
  intros Hacc Hrun. destruct acc as [t0|].
  - rewrite get_correlations_some in Hrun.
    destruct (for_each _ _ h) as [[[]|e] h1] eqn:Hloop; [|done].
    injection Hrun as <- <-.
    destruct (for_each_success df t0 pairs h h1 (Hacc t0 eq_refl) Hloop)
      as (f & Hwf & Hcol).
    exists f. do 2 (split; [done|]). intros k Hk.
    destruct (table_wf_column h t0 k (Hacc t0 eq_refl) Hk) as [xs Hxs].
    simpl. rewrite Hxs. by apply Hcol.
  - rewrite get_correlations_none, get_correlations_some in Hrun.
    destruct (for_each _ _ (fresh_table h)) as [[[]|e] h1] eqn:Hloop; [|done].
    injection Hrun as <- <-.
    destruct (for_each_success df _ pairs _ h1 (fresh_table_wf h) Hloop)
      as (f & Hwf & Hcol).
    exists f. do 2 (split; [done|]). intros k Hk.
    apply (Hcol k []); [done|]. by apply fresh_table_column.
Qed.

(** A relation that holds between two fields of every record holds between
    the rows that the pairs add to the two columns. *)
Lemma rows_of_Forall2 (R : value -> value -> Prop) f k1 k2 ps :
  (forall p src pcc,
     Forall2 R (cell k1 (record_fields p src pcc))
               (cell k2 (record_fields p src pcc))) ->
  Forall2 R (rows_of f k1 ps) (rows_of f k2 ps).
Proof.
  intros HR. unfold rows_of.
  induction (List.filter nonself ps) as [|p qs IH]; simpl; [constructor|].
  apply Forall2_app; [|exact IH].
  destruct (pair_record f p) as [r|e] eqn:Hr; [|constructor].
  destruct (pair_record_shape f p r Hr) as (src & pcc & ->). apply HR.
Qed.

Lemma for_each_self df t ps1 a ps2 h :
  for_each (ps1 ++ (a, a) :: ps2) (process_pair df t) h
  = for_each (ps1 ++ ps2) (process_pair df t) h.
Proof.
  rewrite !for_each_app. unfold bind.
  destruct (for_each ps1 _ h) as [[[]|e] h1]; [|done].
  simpl. unfold bind. by rewrite (process_pair_self df t a h1).
Qed.

End Inversion.

Lemma get_correlations_app `{SciPyStats} P1 P2 df acc h t1 h1 r h2 :
  get_correlations P1 df acc h = (Ok t1, h1) ->
  get_correlations P2 df (Some t1) h1 = (r, h2) ->
  get_correlations (P1 ++ P2) df acc h = (r, h2).
Proof.
  assert (Hsome : forall t h,
    get_correlations P1 df (Some t) h = (Ok t1, h1) ->
    get_correlations P2 df (Some t1) h1 = (r, h2) ->
    get_correlations (P1 ++ P2) df (Some t) h = (r, h2)).
  { intros t h0. rewrite !get_correlations_some, for_each_app.
    unfold bind. destruct (for_each P1 _ h0) as [[[]|e] h1'']; [|done].
    intros [= <- <-]. done. }
  destruct acc as [t|]; [apply Hsome|].
  rewrite !get_correlations_none. apply Hsome.
Qed.

(** ** What a call may change in the store *)

Lemma evolves_refl t h : evolves t h h.
Proof. split; [done|]. intros l o Hl. by left. Qed.

Lemma evolves_trans t h1 h2 h3 :
  evolves t h1 h2 -> evolves t h2 h3 -> evolves t h1 h3.
Proof.
  intros [Hloc12 Hobj12] [Hloc23 Hobj23]. split.
  - intros k. by rewrite Hloc23, Hloc12.
  - intros l o Hl. destruct (Hobj12 l o Hl) as [Hl2|(k & xs & ys & Hk & Hkl & -> & Hl2)].
    + destruct (Hobj23 l o Hl2) as [Hl3|(k & xs & ys & Hk & Hkl & -> & Hl3)].
      * by left.
      * right. exists k, xs, ys. by rewrite <- Hloc12.
    + right. exists k, xs.
      destruct (Hobj23 l _ Hl2) as [Hl3|(k' & xs' & zs & _ & _ & [= <-] & Hl3)].
      * by exists ys.
      * exists (ys ++ zs). by rewrite app_assoc.
Qed.

Lemma evolves_alloc_frame t h f : evolves t h (h ++ [OFrame f]).
Proof.
  split.
  - intros k. unfold column_loc. destruct (h !! t) as [o|] eqn:Ht.
    + by rewrite (lookup_app_l_Some _ _ _ _ Ht).
    + apply lookup_ge_None in Ht.
      destruct (decide (t = length h)) as [->|Hne].
      * by rewrite lookup_alloc_new.
      * rewrite lookup_ge_None_2; [done|]. rewrite length_app. simpl. lia.
  - intros l o Hl. left. by apply lookup_app_l_Some.
Qed.

Lemma append_to_cases t k v h r h' :
  append_to t k v h = (r, h') ->
  h' = h \/
  exists l xs, column_loc h t k = Some l /\ h !! l = Some (OList xs) /\
               h' = <[l := OList (xs ++ [v])]> h.
Proof.
  unfold append_to, dict_getitem, list_append, load, store, column_loc.
  unfold bind, ret, raise.
  destruct (h !! t) as [[?|d|?]|]; try (intros [= _ <-]; by left).
  destruct (d !! k) as [l|]; [|intros [= _ <-]; by left].
  destruct (h !! l) as [[xs|?|?]|] eqn:Hl; try (intros [= _ <-]; by left).
  intros [= _ <-]. right. by exists l, xs.
Qed.

Lemma evolves_append_to t k v h r h' :
  k ∈ field_names -> append_to t k v h = (r, h') -> evolves t h h'.
Proof.
  intros Hk [->|(l & xs & Hkl & Hl & ->)]%append_to_cases;
    [apply evolves_refl|].
  split.
  - intros k'. by eapply column_loc_insert_list.
  - intros l' o Hl'. destruct (decide (l = l')) as [<-|Hne].
    + right. exists k, xs, [v]. rewrite Hl in Hl'. injection Hl' as <-.
      do 3 (split; [done|]).
      apply list_lookup_insert_eq. by eapply lookup_lt_Some.
    + left. by rewrite list_lookup_insert_ne.
Qed.

Lemma evolves_append_all t kvs : forall h r h',
  Forall (fun kv => fst kv ∈ field_names) kvs ->
  append_all t kvs h = (r, h') -> evolves t h h'.
Proof.
  induction kvs as [|[k v] kvs IH]; intros h r h' Hkvs; unfold append_all; simpl.
  - intros [= _ <-]. apply evolves_refl.
  - apply Forall_cons in Hkvs as [Hk Hkvs]. unfold bind.
    destruct (append_to t k v h) as [[[]|e] h1] eqn:Hstep.
    + intros Hrest. apply (evolves_trans t h h1 h').
      * by eapply evolves_append_to.
      * by eapply IH.
    + intros [= _ <-]. by eapply evolves_append_to.
Qed.

Section Frame.
Context `{SciPyStats}.

Lemma evolves_process_pair df t p h r h' :
  process_pair df t p h = (r, h') -> evolves t h h'.
Proof.
  destruct (nonself p) eqn:Hns.
  2: { rewrite process_pair_skip by done. intros [= _ <-]. apply evolves_refl. }
  destruct (h !! df) as [o|] eqn:Hdf.
  1: destruct o as [xs|d|f].
  3: { rewrite (process_pair_record df t p f h Hdf Hns).
       assert (Hframes : evolves t h
                 (h ++ [OFrame (selection f p); OFrame (pair_data f p)])).
       { change (h ++ [OFrame (selection f p); OFrame (pair_data f p)])
           with (h ++ [OFrame (selection f p)] ++ [OFrame (pair_data f p)]).
         rewrite app_assoc.
         eapply evolves_trans; apply evolves_alloc_frame. }
       destruct (pair_record f p) as [kvs|e] eqn:Hr.
       - destruct (pair_record_shape f p kvs Hr) as (src & pcc & ->).
         intros Hrun. eapply evolves_trans; [exact Hframes|].
         eapply evolves_append_all; [apply record_fields_in|exact Hrun].
       - intros [= _ <-]. destruct (decide (present f p));
           [exact Hframes|apply evolves_refl]. }
  all: destruct p as [a b]; rewrite process_pair_no_frame;
    [intros [= _ <-]; apply evolves_refl|by rewrite Hdf
    |by apply (nonself_neq (a, b))].
Qed.

Lemma evolves_for_each df t ps : forall h r h',
  for_each ps (process_pair df t) h = (r, h') -> evolves t h h'.
Proof.
  induction ps as [|p ps IH]; intros h r h'; simpl.
  - intros [= _ <-]. apply evolves_refl.
  - unfold bind. destruct (process_pair df t p h) as [[[]|e] h1] eqn:Hstep.
    + intros Hrest. apply (evolves_trans t h h1 h').
      * by eapply evolves_process_pair.
      * by eapply IH.
    + intros [= _ <-]. by eapply evolves_process_pair.
Qed.

Lemma get_correlations_evolves pairs df t h r h' :
  get_correlations pairs df (Some t) h = (r, h') ->
  evolves t h h' /\ (forall t', r = Ok t' -> t' = t).
Proof.
  rewrite get_correlations_some.
  destruct (for_each _ _ h) as [[[]|e] h1] eqn:Hloop; intros [= <- <-];
    (split; [by eapply evolves_for_each|]); by intros t' [= <-].
Qed.

End Frame.

Lemma evolves_frame t h h' df f :
  evolves t h h' -> h !! df = Some (OFrame f) -> h' !! df = Some (OFrame f).
Proof.
  intros [_ Hobj] Hdf.
  by destruct (Hobj df _ Hdf) as [Hl'|(k & xs' & ys & _ & _ & [=] & _)].
Qed.

Lemma get_correlations_frame `{SciPyStats} pairs df acc f h r h' :
  h !! df = Some (OFrame f) ->
  get_correlations pairs df acc h = (r, h') ->
  h' !! df = Some (OFrame f).
Proof.
  intros Hdf. destruct acc as [t|].
  - intros [Hev _]%get_correlations_evolves. by eapply evolves_frame.
  - rewrite get_correlations_none.
    intros [Hev _]%get_correlations_evolves.
    eapply evolves_frame; [exact Hev|]. by apply lookup_app_l_Some.
Qed.

(** ** An accumulator that lacks a key *)







Lemma for_each_selfs `{SciPyStats} df t selfs h :
  Forall (fun q => nonself q = false) selfs ->
  for_each selfs (process_pair df t) h = (Ok tt, h).
Proof.
  induction 1 as [|q selfs Hq _ IH]; simpl; [done|].
  by rewrite (bind_ok _ _ _ _ _ (process_pair_skip df t q h Hq)).
Qed.

(** ** The rows that the statistics are computed from *)

Lemma filter_filter {A} (p q : A -> bool) l :
  List.filter q (List.filter p l) = List.filter (fun x => p x && q x) l.
Proof.
  induction l as [|x l IH]; simpl; [done|].
  destruct (p x); simpl; [|done]. destruct (q x); by rewrite IH.
Qed.

Lemma filter_map {A B} (p : B -> bool) (g : A -> B) l :
  List.filter p (map g l) = map g (List.filter (fun x => p (g x)) l).
Proof.
  induction l as [|x l IH]; simpl; [done|].
  destruct (p (g x)); simpl; by rewrite IH.
Qed.

Lemma finite_pair x y :
  forallb finite [x; y]
  = (negb (isna x) && negb (isna y)) && (negb (isinf x) && negb (isinf y)).
Proof.
  unfold finite. simpl.
  by destruct (isna x), (isna y), (isinf x), (isinf y).
Qed.

Lemma pair_data_arrays f p :
  iloc (pair_data f p) 0 = map fst (finite_cases f p) /\
  iloc (pair_data f p) 1 = map snd (finite_cases f p).
Proof.
  unfold iloc, pair_data. rewrite clean_values.
  unfold finite_cases, complete_cases, paired, selection. simpl values.
  rewrite filter_filter, !filter_map, !map_map. simpl.
  erewrite filter_ext; [done|]. intros row. apply finite_pair.
Qed.

Lemma finite_cases_present f p :
  Forall (fun r => isna (fst r) = false /\ isna (snd r) = false)
         (finite_cases f p).
Proof.
  apply Forall_forall. intros r Hr%list_elem_of_In.
  unfold finite_cases, complete_cases in Hr.
  apply filter_In in Hr as [Hr _]. apply filter_In in Hr as [_ Hr].
  apply andb_true_iff in Hr as [H1 H2].
  by apply negb_true_iff in H1, H2.
Qed.

(** ** A dataset without the rows that hold an infinite value *)

Lemma pair_data_without_inf_rows f p :
  pair_data (without_inf_rows f p) p = pair_data f p.
Proof.
  unfold pair_data, clean, dropna, replace_inf, selection, without_inf_rows.
  simpl. f_equal.
  pose proof (clean_values
    (mkFrame [fst p; snd p]
       (map (fun row => [at_label (columns f) row (fst p);
                         at_label (columns f) row (snd p)])
          (List.filter
             (fun row => negb (isinf (at_label (columns f) row (fst p)))
                         && negb (isinf (at_label (columns f) row (snd p))))
             (values f))))) as H1.
  pose proof (clean_values (selection f p)) as H2.
  unfold clean, dropna, replace_inf, selection in H1, H2. simpl in H1, H2.
  rewrite H1, H2, !filter_map. f_equal. rewrite filter_filter.
  apply filter_ext. intros row. rewrite finite_pair.
  by destruct (isna _), (isna _), (isinf _), (isinf _).
Qed.

Lemma present_without_inf_rows f p :
  present (without_inf_rows f p) p <-> present f p.
Proof. reflexivity. Qed.

Lemma pair_record_without_inf_rows `{SciPyStats} f p :
  pair_record (without_inf_rows f p) p = pair_record f p.
Proof.
  unfold pair_record. destruct (decide (present f p)) as [Hp|Hp].
  - rewrite (getitem_present f p Hp).
    rewrite (getitem_present (without_inf_rows f p) p)
      by by apply present_without_inf_rows.
    fold (pair_data (without_inf_rows f p) p). fold (pair_data f p).
    by rewrite pair_data_without_inf_rows.
  - rewrite (getitem_not_present f p Hp).
    rewrite (getitem_not_present (without_inf_rows f p) p); [done|].
    by rewrite present_without_inf_rows.
Qed.

(** ** Stores that differ in their frames only *)

Lemma agree_column_loc h1 h2 t k :
  agree h1 h2 -> column_loc h1 t k = column_loc h2 t k.
Proof.
  intros [_ Ha]. unfold column_loc. specialize (Ha t).
  destruct (h1 !! t) as [[]|], (h2 !! t) as [[]|]; congruence.
Qed.

Lemma agree_column h1 h2 t k :
  agree h1 h2 -> column h1 t k = column h2 t k.
Proof.
  intros Hag. unfold column. rewrite (agree_column_loc h1 h2 t k Hag).
  destruct (column_loc h2 t k) as [l|]; [|done].
  destruct Hag as [_ Ha]. specialize (Ha l).
  destruct (h1 !! l) as [[]|], (h2 !! l) as [[]|]; congruence.
Qed.

Lemma agree_app h1 h2 X1 X2 :
  agree h1 h2 -> agree X1 X2 -> agree (h1 ++ X1) (h2 ++ X2).
Proof.
  intros [Hlen Ha] [HlenX HaX]. split; [rewrite !length_app; lia|].
  intros l. destruct (decide (l < length h1)) as [Hlt|Hge].
  - rewrite !lookup_app_l by lia. apply Ha.
  - rewrite !lookup_app_r by lia. rewrite Hlen. apply HaX.
Qed.

Lemma agree_insert h1 h2 l o :
  agree h1 h2 -> agree (<[l := o]> h1) (<[l := o]> h2).
Proof.
  intros [Hlen Ha]. split; [by rewrite !length_insert|].
  intros l'. destruct (decide (l = l')) as [<-|Hne].
  - destruct (decide (l < length h1)) as [Hlt|Hge].
    + rewrite !list_lookup_insert_eq by lia. by destruct o.
    + rewrite !list_insert_ge by lia. apply Ha.
  - rewrite !list_lookup_insert_ne by done. apply Ha.
Qed.

Lemma agree_frames (a b a' b' : DataFrame) :
  agree [OFrame a; OFrame b] [OFrame a'; OFrame b'].
Proof. split; [done|]. by intros [|[|l]]. Qed.

Lemma append_to_eq t k v h :
  append_to t k v h =
  match h !! t with
  | Some (ODict d) =>
      match d !! k with
      | Some l =>
          match h !! l with
          | Some (OList xs) => (Ok tt, <[l := OList (xs ++ [v])]> h)
          | _ => (Raise TypeError, h)
          end
      | None => (Raise (KeyError [k]), h)
      end
  | _ => (Raise TypeError, h)
  end.
Proof.
  unfold append_to, dict_getitem, list_append, load, store, bind, ret, raise.
  destruct (h !! t) as [[?|d|?]|]; try done.
  destruct (d !! k) as [l|]; [|done].
  by destruct (h !! l) as [[?|?|?]|].
Qed.

Lemma agree_append_to t k v h1 h2 :
  agree h1 h2 ->
  exists r h1' h2',
    append_to t k v h1 = (r, h1') /\ append_to t k v h2 = (r, h2') /\
    agree h1' h2'.
Proof.
  intros Hag. rewrite !append_to_eq.
  pose proof Hag as [_ Ha]. pose proof (Ha t) as Ht.
  destruct (h1 !! t) as [[?|d|?]|] eqn:Ht1, (h2 !! t) as [[?|d2|?]|] eqn:Ht2;
    try done; try (by eexists _, _, _).
  injection Ht as <-. destruct (d !! k) as [l|]; [|by eexists _, _, _].
  pose proof (Ha l) as Hl.
  destruct (h1 !! l) as [[xs|?|?]|] eqn:Hl1, (h2 !! l) as [[xs2|?|?]|] eqn:Hl2;
    try done; try (by eexists _, _, _).
  injection Hl as <-. eexists _, _, _. do 2 (split; [done|]).
  by apply agree_insert.
Qed.

Lemma agree_append_all t kvs : forall h1 h2,
  agree h1 h2 ->
  exists r h1' h2',
    append_all t kvs h1 = (r, h1') /\ append_all t kvs h2 = (r, h2') /\
    agree h1' h2'.
Proof.
  induction kvs as [|[k v] kvs IH]; intros h1 h2 Hag.
  - by exists (Ok tt), h1, h2.
  - unfold append_all in *. simpl. unfold bind.
    destruct (agree_append_to t k v h1 h2 Hag)
      as (r & h1' & h2' & -> & -> & Hag').
    destruct r as [[]|e]; [by apply IH|]. by eexists _, _, _.
Qed.

Section Agree.
Context `{SciPyStats}.

(** The same pair processed in two stores that agree, with datasets that
    yield the same record: the same outcome, in stores that agree. *)
Lemma agree_process_pair df t p f1 f2 h1 h2 :
  agree h1 h2 ->
  h1 !! df = Some (OFrame f1) -> h2 !! df = Some (OFrame f2) ->
  pair_record f1 p = pair_record f2 p ->
  (present f1 p <-> present f2 p) ->
  exists r h1' h2',
    process_pair df t p h1 = (r, h1') /\ process_pair df t p h2 = (r, h2') /\
    agree h1' h2'.
Proof.
  intros Hag Hdf1 Hdf2 Hrec Hpres. destruct (nonself p) eqn:Hns.
  2: { exists (Ok tt), h1, h2. by rewrite !process_pair_skip. }
  rewrite (process_pair_record df t p f1 h1 Hdf1 Hns).
  rewrite (process_pair_record df t p f2 h2 Hdf2 Hns).
  rewrite Hrec.
  assert (Hag' : agree
    (h1 ++ [OFrame (selection f1 p); OFrame (pair_data f1 p)])
    (h2 ++ [OFrame (selection f2 p); OFrame (pair_data f2 p)]))
    by (apply agree_app; [done|apply agree_frames]).
  destruct (pair_record f2 p) as [kvs|e].
  - by apply agree_append_all.
  - destruct (decide (present f1 p)) as [Hp|Hp], (decide (present f2 p));
      try tauto; by eexists _, _, _.
Qed.

Lemma agree_get_correlations p df acc f1 f2 h1 h2 :
  agree h1 h2 ->
  h1 !! df = Some (OFrame f1) -> h2 !! df = Some (OFrame f2) ->
  pair_record f1 p = pair_record f2 p ->
  (present f1 p <-> present f2 p) ->
  exists r h1' h2',
    get_correlations [p] df acc h1 = (r, h1') /\
    get_correlations [p] df acc h2 = (r, h2') /\
    agree h1' h2'.
Proof.
  assert (Hsome : forall t h1 h2,
    agree h1 h2 ->
    h1 !! df = Some (OFrame f1) -> h2 !! df = Some (OFrame f2) ->
    pair_record f1 p = pair_record f2 p ->
    (present f1 p <-> present f2 p) ->
    exists r h1' h2',
      get_correlations [p] df (Some t) h1 = (r, h1') /\
      get_correlations [p] df (Some t) h2 = (r, h2') /\
      agree h1' h2').
  { intros t g1 g2 Hag Hdf1 Hdf2 Hrec Hpres.
    rewrite !get_correlations_some. simpl. unfold bind.
    destruct (agree_process_pair df t p f1 f2 g1 g2 Hag Hdf1 Hdf2 Hrec Hpres)
      as (r & g1' & g2' & -> & -> & Hag').
    destruct r as [[]|e]; by eexists _, _, _. }
  intros Hag Hdf1 Hdf2 Hrec Hpres. destruct acc as [t|]; [by apply Hsome|].
  rewrite !get_correlations_none.
  destruct Hag as [Hlen Ha] eqn:E. clear E. rewrite Hlen.
  apply Hsome; try done.
  - unfold fresh_table. rewrite Hlen.
    apply agree_app; [done|]. split; [done|].
    intros l. by destruct (_ !! l) as [[]|].
  - by apply lookup_app_l_Some.
  - by apply lookup_app_l_Some.
Qed.

End Agree.

(** * The claims *)

(** C1: what the code does on a pair whose Pearson coefficient is negative.
    On the dataset A = [1,2,3], B = [3,2,1] and the pair (A, B), with [pcc]
    and [src] the answers of the library, the call returns a table of one
    row whose 'Absolute Spearman' entry is the absolute value of the
    'Spearman' entry, and whose 'Absolute Pearson' entry is the 'Pearson'
    entry itself, sign included. *)
Theorem absolute_pearson_keeps_sign `{SciPyStats} pcc src :
  pearsonr [1; 2; 3]%float [3; 2; 1]%float = Ok pcc ->
  spearmanr [1; 2; 3]%float [3; 2; 1]%float = Ok src ->
  exists t h',
    get_correlations [("A", "B")] 0 None [OFrame falling_df] = (Ok t, h') /\
    column h' t "Spearman" = Some [VFloat (statistic src)] /\
    column h' t "Absolute Spearman"
      = Some [VFloat (PrimFloat.abs (statistic src))] /\
    column h' t "Pearson" = Some [VFloat (statistic pcc)] /\
    column h' t "Absolute Pearson" = Some [VFloat (statistic pcc)].
Proof.
  intros Hpcc Hsrc.
  assert (Hpr : present falling_df ("A", "B")) by (split; reflexivity).
  assert (Hst : stats_return falling_df ("A", "B")) by (by exists pcc, src).
  destruct (get_correlations_ok [("A", "B")] 0 None falling_df
              [OFrame falling_df]) as (t & h' & Hrun & _ & _ & _ & Hcol);
    [done|done|by repeat constructor|].
  destruct (pair_record_ok falling_df ("A", "B") Hpr Hst)
    as (pcc' & src' & Hpcc' & Hsrc' & Hr).
  change (pearsonr [1; 2; 3]%float [3; 2; 1]%float = Ok pcc') in Hpcc'.
  change (spearmanr [1; 2; 3]%float [3; 2; 1]%float = Ok src') in Hsrc'.
  assert (pcc' = pcc) as -> by congruence.
  assert (src' = src) as -> by congruence.
  exists t, h'. split; [done|].
  repeat split; (rewrite Hcol by field_in);
    by rewrite (rows_of_cons falling_df _ ("A", "B") [] _ eq_refl Hr).
Qed.

Lemma absolute_pearson_keeps_sign_witness :
  exists t h',
    @get_correlations (stub_stats (mkStat (-1) 0) (mkStat (-1) 0))
      [("A", "B")] 0 None [OFrame falling_df] = (Ok t, h') /\
    column h' t "Absolute Spearman" = Some [VFloat 1] /\
    column h' t "Pearson" = Some [VFloat (-1)] /\
    column h' t "Absolute Pearson" = Some [VFloat (-1)] /\
    PrimFloat.abs (-1) = 1%float.
Proof.
  destruct (@absolute_pearson_keeps_sign
              (stub_stats (mkStat (-1) 0) (mkStat (-1) 0))
              (mkStat (-1) 0) (mkStat (-1) 0) eq_refl eq_refl)
    as (t & h' & Hrun & _ & Habs & Hp & Hap).
  exists t, h'. repeat split; assumption || reflexivity.
Defined.

(** C2: a call on a pair list that holds a self-pair (A, A) is the call on
    the list without that pair: the same result (a table or an exception)
    and the same store, so no row and no error come from the self-pair and
    the accumulator, absent or supplied, is as if the pair had not been
    there; the loop body on a self-pair returns normally and leaves any
    store as it is, whatever the table and the state of the store. *)
Theorem self_pairs_skipped `{SciPyStats} ps1 a ps2 df acc h :
  get_correlations (ps1 ++ (a, a) :: ps2) df acc h
  = get_correlations (ps1 ++ ps2) df acc h /\
  (forall t h0, process_pair df t (a, a) h0 = (Ok tt, h0)).
Proof.
  split; [|intros t h0; apply process_pair_self].
  destruct acc as [t|].
  - by rewrite !get_correlations_some, for_each_self.
  - by rewrite !get_correlations_none, !get_correlations_some, for_each_self.
Qed.

(** C3 as amended: the dataset has distinct column labels, and of the pairs
    those that are not self-pairs name columns of the dataset and have
    statistics that the library returns on their cleaned data.  From a
    fresh or a well-formed accumulator the call then returns a table whose
    nine columns are distinct lists of one common length; every column is
    its former contents followed by one value per non-self pair; the
    feature columns list the non-self pairs in input order, a repeated pair
    being listed as often as it occurs; and the same holds after every
    prefix of the pairs. *)
Theorem rows_appended_in_order `{SciPyStats} pairs df acc f h :
  h !! df = Some (OFrame f) ->
  NoDup (columns f) ->
  (forall t, acc = Some t -> table_wf h t) ->
  Forall (valid f) pairs ->
  exists t h',
    get_correlations pairs df acc h = (Ok t, h') /\
    table_wf h' t /\
    (forall k, k ∈ field_names ->
       column h' t k = Some (prior h acc k ++ rows_of f k pairs) /\
       length (rows_of f k pairs) = length (List.filter nonself pairs)) /\
    rows_of f "Feature 1" pairs
      = map (fun p => VStr (fst p)) (List.filter nonself pairs) /\
    rows_of f "Feature 2" pairs
      = map (fun p => VStr (snd p)) (List.filter nonself pairs) /\
    (forall ps1 ps2, pairs = ps1 ++ ps2 ->
       exists h1, get_correlations ps1 df acc h = (Ok t, h1) /\ table_wf h1 t).
Proof.
  intros Hdf _ Hacc Hps.
  destruct (get_correlations_ok pairs df acc f h Hdf Hacc Hps)
    as (t & h' & Hrun & Ht & _ & Hwf & Hcol).
  exists t, h'. do 2 (split; [done|]).
  split; [|split; [|split]].
  - intros k Hk. split; [by apply Hcol|by apply rows_of_length].
  - by apply rows_of_features.
  - by apply rows_of_features.
  - intros ps1 ps2 ->. apply Forall_app in Hps as [Hps1 _].
    destruct (get_correlations_ok ps1 df acc f h Hdf Hacc Hps1)
      as (t1 & h1 & Hrun1 & Ht1 & _ & Hwf1 & _).
    exists h1. by rewrite Ht, <- Ht1.
Qed.

Lemma rows_appended_in_order_witness :
  exists t h',
    @get_correlations (stub_stats (mkStat 1 0) (mkStat 1 0))
      [("X", "Y"); ("X", "X"); ("X", "Y"); ("Y", "X")] 0 None
      [OFrame linear_df] = (Ok t, h') /\
    column h' t "Feature 1" = Some [VStr "X"; VStr "X"; VStr "Y"] /\
    column h' t "Feature 2" = Some [VStr "Y"; VStr "Y"; VStr "X"].
Proof.
  destruct (@rows_appended_in_order (stub_stats (mkStat 1 0) (mkStat 1 0))
              [("X", "Y"); ("X", "X"); ("X", "Y"); ("Y", "X")] 0 None
              linear_df [OFrame linear_df])
    as (t & h' & Hrun & _ & Hcol & Hf1 & Hf2 & _).
  - reflexivity.
  - compute_done.
  - intros t Ht. discriminate Ht.
  - repeat constructor; try (intros Hns; discriminate Hns);
      eexists _, _; split; reflexivity.
  - exists t, h'. split; [exact Hrun|].
    split.
    + destruct (Hcol "Feature 1") as [Hc _]; [by left|].
      rewrite Hc, Hf1. reflexivity.
    + destruct (Hcol "Feature 2") as [Hc _]; [by right; left|].
      rewrite Hc, Hf2. reflexivity.
Defined.

(** C3 as stated fails on a pair that is not a self-pair and names two
    columns of the dataset when the library raises on its cleaned data:
    ("X", "Z") of [sparse_df] has one row without a missing value, on which
    [pearsonr] raises.  The call raises, and no column of the table has got
    a row for the pair. *)
Lemma present_pair_without_statistics :
  nonself ("X", "Z") = true /\
  present sparse_df ("X", "Z") /\
  iloc (pair_data sparse_df ("X", "Z")) 0 = [3%float] /\
  fst (@get_correlations (stub_stats (mkStat 1 0) (mkStat 1 0))
         [("X", "Z")] 0 None [OFrame sparse_df]) = Raise ValueError /\
  map (column
         (snd (@get_correlations (stub_stats (mkStat 1 0) (mkStat 1 0))
                 [("X", "Z")] 0 None [OFrame sparse_df])) 10) field_names
  = replicate 9 (Some []).
Proof. repeat split; vm_compute; reflexivity. Qed.

(** C4: when a call on [P1] returns a table and a second call on [P2]
    continues from that table, the single call on [P1 ++ P2] from the same
    start ends with the same result in the same store: the same table,
    column by column and in the same order. *)
Theorem continued_call_is_single_call `{SciPyStats} P1 P2 df acc h t1 h1 r h2 :
  get_correlations P1 df acc h = (Ok t1, h1) ->
  get_correlations P2 df (Some t1) h1 = (r, h2) ->
  get_correlations (P1 ++ P2) df acc h = (r, h2).
Proof. apply get_correlations_app. Qed.

Lemma continued_call_is_single_call_witness :
  exists t1 h1 r h2,
    @get_correlations (stub_stats (mkStat 1 0) (mkStat 1 0))
      [("X", "Y")] 0 None [OFrame linear_df] = (Ok t1, h1) /\
    @get_correlations (stub_stats (mkStat 1 0) (mkStat 1 0))
      [("Y", "X")] 0 (Some t1) h1 = (r, h2) /\
    @get_correlations (stub_stats (mkStat 1 0) (mkStat 1 0))
      [("X", "Y"); ("Y", "X")] 0 None [OFrame linear_df] = (r, h2).
Proof.
  eexists _, _, _, _.
  split; [vm_compute; reflexivity|]. split; [vm_compute; reflexivity|].
  eapply (@continued_call_is_single_call (stub_stats (mkStat 1 0) (mkStat 1 0))
            [("X", "Y")] [("Y", "X")] 0 None [OFrame linear_df] 10);
    vm_compute; reflexivity.
Defined.

(** C5: in the table that a call returns, from a fresh accumulator or from
    a well-formed one whose rows have the property, the 'Pearson r-squared'
    entry of every row is the 'Pearson' entry of that row, a float [x],
    squared: [x ** 2], the library's power of [x] at the exponent 2. *)
Theorem pearson_r_squared `{SciPyStats} pairs df acc h t h' :
  (forall t0, acc = Some t0 ->
     table_wf h t0 /\
     Forall2 (fun p r => exists x, p = VFloat x /\ r = VFloat (float_pow x 2))
             (prior h acc "Pearson") (prior h acc "Pearson r-squared")) ->
  get_correlations pairs df acc h = (Ok t, h') ->
  exists ps rs,
    column h' t "Pearson" = Some ps /\
    column h' t "Pearson r-squared" = Some rs /\
    Forall2 (fun p r => exists x, p = VFloat x /\ r = VFloat (float_pow x 2))
            ps rs.
Proof.
  intros Hacc Hrun.
  destruct (get_correlations_success pairs df acc h t h') as (f & _ & _ & Hcol);
    [by intros t0 [Hwf _]%Hacc|done|].
  eexists _, _. split; [apply Hcol; field_in|].
  split; [apply Hcol; field_in|].
  apply Forall2_app.
  - destruct acc as [t0|]; [by apply (Hacc t0)|constructor].
  - apply rows_of_Forall2. intros p src pcc. simpl.
    constructor; [|constructor]. by eexists.
Qed.

Lemma pearson_r_squared_witness :
  exists t h',
    @get_correlations (stub_stats (mkStat (-0.5) 0.25) (mkStat (-1) 0))
      [("A", "B"); ("B", "A")] 0 None [OFrame falling_df] = (Ok t, h') /\
    exists ps rs,
      column h' t "Pearson" = Some ps /\
      column h' t "Pearson r-squared" = Some rs /\
      Forall2 (fun p r =>
                 exists x, p = VFloat x /\
                   r = VFloat (@float_pow
                                 (stub_stats (mkStat (-0.5) 0.25) (mkStat (-1) 0))
                                 x 2))
              ps rs.
Proof.
  eexists _, _. split; [vm_compute; reflexivity|].
  apply (@pearson_r_squared (stub_stats (mkStat (-0.5) 0.25) (mkStat (-1) 0))
           [("A", "B"); ("B", "A")] 0 None [OFrame falling_df]).
  - intros t0 Ht0. discriminate Ht0.
  - vm_compute. reflexivity.
Defined.

(** C6: the call on one pair gives the same result, and a table with the
    same columns (coefficients and p-values included), on the dataset and
    on the dataset from which the rows with an infinite value in a column
    of the pair have been removed; and the arrays that the statistics of
    the pair are computed from hold no infinite and no missing value. *)
Theorem infinite_rows_excluded `{SciPyStats} p df acc f h :
  h !! df = Some (OFrame f) ->
  (exists r h1 h2,
     get_correlations [p] df acc h = (r, h1) /\
     get_correlations [p] df acc (<[df := OFrame (without_inf_rows f p)]> h)
     = (r, h2) /\
     (forall t k, column h2 t k = column h1 t k)) /\
  Forall (fun x => finite x = true)
         (iloc (pair_data f p) 0 ++ iloc (pair_data f p) 1).
Proof.
  intros Hdf. split.
  - assert (Hlt : df < length h) by by eapply lookup_lt_Some.
    destruct (agree_get_correlations p df acc f (without_inf_rows f p) h
                (<[df := OFrame (without_inf_rows f p)]> h))
      as (r & h1 & h2 & Hrun1 & Hrun2 & Hag).
    + split; [by rewrite length_insert|]. intros l.
      destruct (decide (df = l)) as [<-|Hne].
      * by rewrite list_lookup_insert_eq, Hdf.
      * rewrite list_lookup_insert_ne by done. by destruct (h !! l) as [[]|].
    + done.
    + by apply list_lookup_insert_eq.
    + by rewrite pair_record_without_inf_rows.
    + by rewrite present_without_inf_rows.
    + exists r, h1, h2. do 2 (split; [done|]). intros t k.
      symmetry. by apply agree_column.
  - destruct (pair_data_arrays f p) as [-> ->].
    apply Forall_app. unfold finite_cases, complete_cases.
    split; apply Forall_forall; intros x (r & <- & Hr)%list_elem_of_In%in_map_iff;
      apply filter_In in Hr as [Hr [I1 I2]%andb_true_iff];
      apply filter_In in Hr as [_ [N1 N2]%andb_true_iff];
      unfold finite; by rewrite ?N1, ?N2, ?I1, ?I2.
Qed.

Lemma infinite_rows_excluded_witness :
  without_inf_rows inf_df ("A", "B")
  = mkFrame ["A"; "B"] [[1; 2]; [2; 4]; [3; 6]; [5; 10]]%float /\
  exists r h1 h2,
    @get_correlations (stub_stats (mkStat 1 0) (mkStat 1 0))
      [("A", "B")] 0 None [OFrame inf_df] = (r, h1) /\
    @get_correlations (stub_stats (mkStat 1 0) (mkStat 1 0))
      [("A", "B")] 0 None
      [OFrame (mkFrame ["A"; "B"] [[1; 2]; [2; 4]; [3; 6]; [5; 10]]%float)]
    = (r, h2) /\
    (forall t k, column h2 t k = column h1 t k).
Proof.
  split; [reflexivity|].
  destruct (@infinite_rows_excluded (stub_stats (mkStat 1 0) (mkStat 1 0))
              ("A", "B") 0 None inf_df [OFrame inf_df] eq_refl)
    as [(r & h1 & h2 & Hrun1 & Hrun2 & Hcol) _].
  exists r, h1, h2. split; [exact Hrun1|]. split; [exact Hrun2|exact Hcol].
Defined.

(** C7: when a pair that is not a self-pair and names two columns of the
    dataset, whose column labels are distinct, is processed, the two arrays
    that both statistics are computed from are the entries of those two
    columns in the rows, taken in order, in which neither entry is missing
    (and neither is infinite); the rows are chosen from the two columns of
    the pair alone, so no entry that the statistics see is missing. *)
Theorem complete_case_per_pair `{SciPyStats} df t p f h :
  h !! df = Some (OFrame f) -> NoDup (columns f) ->
  nonself p = true -> present f p ->
  process_pair df t p h =
  (let* pcc := lift (pearsonr (map fst (finite_cases f p))
                              (map snd (finite_cases f p))) in
   let* src := lift (spearmanr (map fst (finite_cases f p))
                               (map snd (finite_cases f p))) in
   collect_results t p src pcc)
    (h ++ [OFrame (selection f p); OFrame (pair_data f p)]) /\
  Forall (fun r => isna (fst r) = false /\ isna (snd r) = false)
         (finite_cases f p).
Proof.
  intros Hdf _ Hns Hp. split; [|apply finite_cases_present].
  destruct p as [a b]. pose proof (nonself_neq (a, b) Hns) as Hab.
  rewrite (process_pair_frame df t a b f h Hdf Hab).
  pose proof (getitem_present f (a, b) Hp) as Hg. cbn [fst snd] in Hg.
  rewrite Hg. fold (pair_data f (a, b)).
  by destruct (pair_data_arrays f (a, b)) as [-> ->].
Qed.

Lemma complete_case_per_pair_witness :
  @process_pair (stub_stats (mkStat 1 0) (mkStat 1 0)) 0 10 ("A", "B")
    (fresh_table [OFrame gappy_df])
  = (let* pcc := lift (@pearsonr (stub_stats (mkStat 1 0) (mkStat 1 0))
                         [1; 4]%float [2; 8]%float) in
     let* src := lift (@spearmanr (stub_stats (mkStat 1 0) (mkStat 1 0))
                         [1; 4]%float [2; 8]%float) in
     @collect_results (stub_stats (mkStat 1 0) (mkStat 1 0))
       10 ("A", "B") src pcc)
      (fresh_table [OFrame gappy_df]
         ++ [OFrame (selection gappy_df ("A", "B"));
             OFrame (pair_data gappy_df ("A", "B"))]) /\
  complete_cases gappy_df ("A", "B") = [(1, 2); (4, 8)]%float /\
  complete_cases gappy_df ("A", "C") = [(3, 1); (4, 1)]%float.
Proof.
  split; [|split; reflexivity].
  apply (@complete_case_per_pair (stub_stats (mkStat 1 0) (mkStat 1 0))
           0 10 ("A", "B") gappy_df (fresh_table [OFrame gappy_df])).
  - reflexivity.
  - compute_done.
  - reflexivity.
  - split; reflexivity.
Defined.

(** C8: a call with a supplied accumulator returns, when it returns, the
    reference it was given; the dictionary maps every key to the list
    object it mapped to before; every list of the store still starts with
    its former contents (values are appended in place); every object that
    is not a column list of the accumulator is exactly as before, the
    dataset among them; and when the call returns, on a dataset with
    distinct column labels and a well-formed accumulator, the list object
    of every column holds its former contents followed by the rows of the
    pairs, one row for each pair that is not a self-pair, in input order. *)
Theorem accumulator_updated_in_place `{SciPyStats} pairs df t h r h' :
  get_correlations pairs df (Some t) h = (r, h') ->
  (forall t', r = Ok t' -> t' = t) /\
  (forall k, column_loc h' t k = column_loc h t k) /\
  (forall l xs, h !! l = Some (OList xs) ->
     exists ys, h' !! l = Some (OList (xs ++ ys))) /\
  (forall l o, h !! l = Some o ->
     (forall k, k ∈ field_names -> column_loc h t k <> Some l) ->
     h' !! l = Some o) /\
  (forall f, h !! df = Some (OFrame f) -> h' !! df = Some (OFrame f)) /\
  (forall f t', h !! df = Some (OFrame f) -> NoDup (columns f) ->
     table_wf h t -> r = Ok t' ->
     table_wf h' t /\
     (forall k, k ∈ field_names ->
        exists xs, column h t k = Some xs /\
                   column h' t k = Some (xs ++ rows_of f k pairs) /\
                   length (rows_of f k pairs)
                   = length (List.filter nonself pairs)) /\
     rows_of f "Feature 1" pairs
       = map (fun p => VStr (fst p)) (List.filter nonself pairs) /\
     rows_of f "Feature 2" pairs
       = map (fun p => VStr (snd p)) (List.filter nonself pairs)).
Proof.
  intros Hrun. pose proof Hrun as [[Hloc Hobj] Ht]%get_correlations_evolves.
  split; [done|]. split; [done|]. split; [|split; [|split]].
  4: { intros f t' Hdf _ Hwf ->.
       destruct (get_correlations_rows pairs df t f h t' h' Hdf Hwf Hrun)
         as (Hps & Hwf' & Hcol).
       split; [done|]. split; [|by apply rows_of_record_features].
       intros k Hk. destruct (table_wf_column h t k Hwf Hk) as [xs Hxs].
       exists xs. split; [done|]. split; [by apply Hcol|].
       by apply rows_of_record_length. }
  - intros l xs Hl.
    destruct (Hobj l _ Hl) as [Hl'|(k & xs' & ys & _ & _ & [= <-] & Hl')].
    + exists []. by rewrite app_nil_r.
    + by exists ys.
  - intros l o Hl Hnot.
    destruct (Hobj l _ Hl) as [Hl'|(k & xs' & ys & Hk & Hkl & _)]; [done|].
    by destruct (Hnot k Hk).
  - intros f Hdf.
    by destruct (Hobj df _ Hdf) as [Hl'|(k & xs' & ys & _ & _ & [=] & _)].
Qed.

Lemma accumulator_updated_in_place_witness :
  exists r h',
    @get_correlations (stub_stats (mkStat 1 0) (mkStat 1 0))
      [("Y", "X")] 0 (Some 10) (fresh_table [OFrame linear_df]) = (r, h') /\
    r = Ok 10 /\
    h' !! 0 = Some (OFrame linear_df) /\
    column h' 10 "Feature 1" = Some [VStr "Y"] /\
    column h' 10 "Feature 2" = Some [VStr "X"].
Proof.
  destruct (@get_correlations (stub_stats (mkStat 1 0) (mkStat 1 0))
              [("Y", "X")] 0 (Some 10) (fresh_table [OFrame linear_df]))
    as [r h'] eqn:Hrun.
  exists r, h'. split; [reflexivity|].
  destruct (@accumulator_updated_in_place _ _ _ _ _ _ _ Hrun)
    as (_ & _ & _ & _ & Hdf & Hrows).
  assert (Hr : r = Ok 10).
  { vm_compute in Hrun. injection Hrun as <- _. reflexivity. }
  split; [exact Hr|]. split; [apply Hdf; reflexivity|].
  destruct (Hrows linear_df 10) as (_ & Hcol & Hf1 & Hf2).
  - reflexivity.
  - compute_done.
  - apply fresh_table_wf.
  - exact Hr.
  - split.
    + destruct (Hcol "Feature 1") as (xs & Hxs & Hxs' & _); [field_in|].
      rewrite Hxs', Hf1. vm_compute in Hxs. injection Hxs as <-. reflexivity.
    + destruct (Hcol "Feature 2") as (xs & Hxs & Hxs' & _); [field_in|].
      rewrite Hxs', Hf2. vm_compute in Hxs. injection Hxs as <-. reflexivity.
Defined.

(** C9 as amended: when the pairs before it have been processed without an
    exception, a pair that is not a self-pair and names a feature that is
    not a column of the dataset makes the call raise the lookup failure for
    the absent names, in the store as the earlier pairs left it: nothing is
    appended for that pair and the pairs after it are not processed. *)
Theorem absent_name_raises `{SciPyStats} ps1 p ps2 df acc f h t h1 :
  h !! df = Some (OFrame f) ->
  get_correlations ps1 df acc h = (Ok t, h1) ->
  nonself p = true ->
  ~ present f p ->
  get_correlations (ps1 ++ p :: ps2) df acc h
  = (Raise (KeyError (List.filter (absent (columns f)) [fst p; snd p])), h1).
Proof.
  intros Hdf Hrun Hns Hp.
  pose proof (get_correlations_frame ps1 df acc f h _ h1 Hdf Hrun) as Hdf1.
  eapply get_correlations_app; [exact Hrun|].
  rewrite get_correlations_some. simpl. unfold bind.
  rewrite (process_pair_record df t p f h1 Hdf1 Hns). unfold pair_record.
  rewrite (getitem_not_present f p Hp).
  by destruct (decide (present f p)).
Qed.

Lemma absent_name_raises_witness :
  exists h1,
    @get_correlations (stub_stats (mkStat 1 0) (mkStat 1 0))
      [("X", "Y"); ("X", "Z"); ("Y", "X")] 0 None [OFrame linear_df]
    = (Raise (KeyError ["Z"]), h1) /\
    column h1 10 "Feature 1" = Some [VStr "X"].
Proof.
  eexists. split.
  - apply (@absent_name_raises (stub_stats (mkStat 1 0) (mkStat 1 0))
             [("X", "Y")] ("X", "Z") [("Y", "X")] 0 None linear_df
             [OFrame linear_df] 10).
    + reflexivity.
    + vm_compute. reflexivity.
    + reflexivity.
    + intros [_ Hz]. discriminate Hz.
  - vm_compute. reflexivity.
Defined.

(** C9 as stated fails on a self-pair: a pair list that names the absent
    feature Z only in the self-pair (Z, Z) raises nothing, the call returns
    the fresh table. *)
Lemma absent_name_in_self_pair :
  absent (columns linear_df) "Z" = true /\
  @get_correlations (stub_stats (mkStat 1 0) (mkStat 1 0))
    [("Z", "Z")] 0 None [OFrame linear_df]
  = (Ok 10, fresh_table [OFrame linear_df]).
Proof. split; vm_compute; reflexivity. Qed.




(** * Further properties of get_correlations *)

Lemma column_app_frames h t k (a b : DataFrame) :
  column (h ++ [OFrame a; OFrame b]) t k = column h t k.
Proof.
  assert (Hfr : forall l, l >= length h ->
            forall xs d, (h ++ [OFrame a; OFrame b]) !! l <> Some (OList xs) /\
                         (h ++ [OFrame a; OFrame b]) !! l <> Some (ODict d)).
  { intros l Hl xs d. rewrite lookup_app_r by lia.
    by destruct (l - length h) as [|[|n]]. }
  assert (Hold : forall l, l < length h ->
            (h ++ [OFrame a; OFrame b]) !! l = h !! l)
    by (intros l Hl; by rewrite lookup_app_l).
  assert (Hloc : column_loc (h ++ [OFrame a; OFrame b]) t k = column_loc h t k).
  { unfold column_loc. destruct (decide (t < length h)) as [Ht|Ht].
    - by rewrite Hold.
    - rewrite (lookup_ge_None_2 h t) by lia.
      destruct (_ !! t) as [[xs|d|g]|] eqn:E; try done.
      by destruct (Hfr t ltac:(lia) [] d) as [_ []]. }
  unfold column. rewrite Hloc. destruct (column_loc h t k) as [l|]; [|done].
  destruct (decide (l < length h)) as [Hl|Hl].
  - by rewrite Hold.
  - rewrite (lookup_ge_None_2 h l) by lia.
    destruct (_ !! l) as [[xs|d|g]|] eqn:E; try done.
    by destruct (Hfr l ltac:(lia) xs ∅) as [[] _].
Qed.

Lemma frame_eq (f g : DataFrame) :
  columns f = columns g -> values f = values g -> f = g.
Proof. destruct f, g. simpl. by intros -> ->. Qed.

Lemma dropna_replace_values rows :
  List.filter (forallb (fun x => negb (isna x))) (map (map replace_inf_value) rows)
  = List.filter (forallb finite) rows.
Proof.
  induction rows as [|row rows IH]; simpl; [done|].
  rewrite forallb_notna_replace, IH.
  destruct (forallb finite row) eqn:Hfin; [|done].
  by rewrite replace_finite_row.
Qed.

Lemma finite_cases_swap f a b :
  finite_cases f (b, a)
  = map (fun r => (snd r, fst r)) (finite_cases f (a, b)).
Proof.
  unfold finite_cases, complete_cases, paired. simpl.
  rewrite !filter_filter, !filter_map, !map_map. simpl.
  erewrite filter_ext; [reflexivity|]. intros row. simpl.
  by rewrite (andb_comm (negb (isna _))), (andb_comm (negb (isinf _))).
Qed.

Lemma fresh_table_column_loc_new h k l :
  column_loc (fresh_table h) (length h + 9) k = Some l -> length h <= l.
Proof.
  unfold column_loc, fresh_table. rewrite lookup_app_plus. simpl.
  unfold fresh_dict. intros Hl.
  apply elem_of_list_to_map_2 in Hl.
  rewrite !elem_of_cons, elem_of_nil in Hl.
  repeat destruct Hl as [[= _ ?]|Hl]; lia || by destruct Hl.
Qed.

(** X1: when the pairs before it have been processed and the statistics
    library raises on the cleaned data of a pair (in [pearsonr], or in
    [spearmanr] after [pearsonr] returned), the call raises that exception
    and nothing of the pair is in the table: every column is as the earlier
    pairs left it, no object of the store has changed, and the pairs after
    it are not processed. *)
Theorem statistics_failure_appends_nothing `{SciPyStats}
    ps1 p ps2 df acc f h t h1 e :
  h !! df = Some (OFrame f) ->
  get_correlations ps1 df acc h = (Ok t, h1) ->
  nonself p = true ->
  present f p ->
  (pearsonr (iloc (pair_data f p) 0) (iloc (pair_data f p) 1) = Raise e \/
   exists pcc,
     pearsonr (iloc (pair_data f p) 0) (iloc (pair_data f p) 1) = Ok pcc /\
     spearmanr (iloc (pair_data f p) 0) (iloc (pair_data f p) 1) = Raise e) ->
  exists h',
    get_correlations (ps1 ++ p :: ps2) df acc h = (Raise e, h') /\
    (forall k, column h' t k = column h1 t k) /\
    (forall l o, h1 !! l = Some o -> h' !! l = Some o).
Proof.
  intros Hdf Hrun Hns Hp Hlib.
  pose proof (get_correlations_frame ps1 df acc f h _ h1 Hdf Hrun) as Hdf1.
  assert (Hr : pair_record f p = Raise e).
  { unfold pair_record. rewrite (getitem_present f p Hp).
    fold (pair_data f p).
    destruct Hlib as [->|(pcc & -> & ->)]; reflexivity. }
  exists (h1 ++ [OFrame (selection f p); OFrame (pair_data f p)]).
  split; [|split].
  - eapply get_correlations_app; [exact Hrun|].
    rewrite get_correlations_some. simpl. unfold bind.
    rewrite (process_pair_record df t p f h1 Hdf1 Hns), Hr.
    by destruct (decide (present f p)).
  - intros k. apply column_app_frames.
  - intros l o Hl. by apply lookup_app_l_Some.
Qed.

Lemma statistics_failure_appends_nothing_witness :
  exists h',
    @get_correlations (stub_stats (mkStat 1 0) (mkStat 1 0))
      [("X", "Y"); ("X", "Z"); ("Y", "X")] 0 None [OFrame sparse_df]
    = (Raise ValueError, h') /\
    column h' 10 "Feature 2" = Some [VStr "Y"] /\
    column h' 10 "Pearson r-squared" = Some [VFloat 1].
Proof.
  destruct (@statistics_failure_appends_nothing
              (stub_stats (mkStat 1 0) (mkStat 1 0))
              [("X", "Y")] ("X", "Z") [("Y", "X")] 0 None sparse_df
              [OFrame sparse_df] 10
              (snd (@get_correlations (stub_stats (mkStat 1 0) (mkStat 1 0))
                      [("X", "Y")] 0 None [OFrame sparse_df]))
              ValueError)
    as (h' & Hrun & Hcol & _).
  - reflexivity.
  - vm_compute. reflexivity.
  - reflexivity.
  - split; reflexivity.
  - left. reflexivity.
  - exists h'. split; [exact Hrun|].
    rewrite !Hcol. split; vm_compute; reflexivity.
Defined.

(** X2: a call without an accumulator changes no object that is in the
    store when it starts, whether it returns or raises; the table that it
    returns is a dictionary that was not in the store before, so two such
    calls never share a table. *)
Theorem fresh_call_is_isolated `{SciPyStats} pairs df h r h' :
  get_correlations pairs df None h = (r, h') ->
  (forall l o, h !! l = Some o -> h' !! l = Some o) /\
  (forall t, r = Ok t -> h !! t = None /\ exists d, h' !! t = Some (ODict d)).
Proof.
  rewrite get_correlations_none.
  intros [[Hloc Hobj] Ht]%get_correlations_evolves. split.
  - intros l o Hl.
    destruct (Hobj l o) as [Hl'|(k & xs & ys & _ & Hk & _)];
      [by apply lookup_app_l_Some|done|].
    apply fresh_table_column_loc_new in Hk.
    apply lookup_lt_Some in Hl. lia.
  - intros t ->%Ht. split.
    + apply lookup_ge_None_2. lia.
    + destruct (Hobj (length h + 9) (ODict (fresh_dict (length h))))
        as [Hl'|(k & xs & ys & _ & _ & [=] & _)].
      * unfold fresh_table. by rewrite lookup_app_plus.
      * eauto.
Qed.

Lemma fresh_call_is_isolated_witness :
  exists r h',
    @get_correlations (stub_stats (mkStat 1 0) (mkStat 1 0))
      [("X", "Y")] 0 None (fresh_table [OFrame linear_df]) = (r, h') /\
    h' !! 0 = Some (OFrame linear_df) /\
    h' !! 1 = Some (OList []) /\
    h' !! 10 = Some (ODict (fresh_dict 1)).
Proof.
  destruct (@get_correlations (stub_stats (mkStat 1 0) (mkStat 1 0))
              [("X", "Y")] 0 None (fresh_table [OFrame linear_df]))
    as [r h'] eqn:Hrun.
  exists r, h'. split; [reflexivity|].
  destruct (@fresh_call_is_isolated _ _ _ _ _ _ Hrun) as [Hold _].
  repeat split; apply Hold; reflexivity.
Defined.

(** X3: on a pair list without a pair to process (the empty list, or
    self-pairs only) the dataset is never looked at, whatever [df] refers
    to: with an accumulator the call returns it and leaves the store as it
    is; without one it returns a new table whose nine columns are present
    and empty. *)
Theorem nothing_to_process `{SciPyStats} pairs df acc h :
  Forall (fun p => nonself p = false) pairs ->
  exists t h',
    get_correlations pairs df acc h = (Ok t, h') /\
    (forall t0, acc = Some t0 -> t = t0 /\ h' = h) /\
    (acc = None ->
     forall k, k ∈ field_names -> column h' t k = Some []).
Proof.
  intros Hps. destruct acc as [t0|].
  - exists t0, h. rewrite get_correlations_some, for_each_selfs by done.
    split; [done|]. split; [by intros ? [= <-]|done].
  - exists (length h + 9), (fresh_table h).
    rewrite get_correlations_none, get_correlations_some, for_each_selfs by done.
    split; [done|]. split; [done|]. intros _ k Hk.
    by apply fresh_table_column.
Qed.

Lemma nothing_to_process_witness :
  exists t h',
    @get_correlations (stub_stats (mkStat 1 0) (mkStat 1 0))
      [("X", "X"); ("Q", "Q")] 7 None [] = (Ok t, h') /\
    column h' t "Pearson" = Some [].
Proof.
  destruct (@nothing_to_process (stub_stats (mkStat 1 0) (mkStat 1 0))
              [("X", "X"); ("Q", "Q")] 7 None [])
    as (t & h' & Hrun & _ & Hcol).
  - repeat constructor.
  - exists t, h'. split; [exact Hrun|]. apply Hcol; [reflexivity|field_in].
Defined.

(** The loop body on a pair of two different columns of the dataset: both
    statistics are taken from the finite cases of the pair. *)
Lemma process_pair_finite_cases `{SciPyStats} df t a b f h :
  h !! df = Some (OFrame f) -> a <> b -> present f (a, b) ->
  process_pair df t (a, b) h =
  (let* pcc := lift (pearsonr (map fst (finite_cases f (a, b)))
                              (map snd (finite_cases f (a, b)))) in
   let* src := lift (spearmanr (map fst (finite_cases f (a, b)))
                               (map snd (finite_cases f (a, b)))) in
   collect_results t (a, b) src pcc)
    (h ++ [OFrame (selection f (a, b)); OFrame (pair_data f (a, b))]).
Proof.
  intros Hdf Hab Hp. rewrite (process_pair_frame df t a b f h Hdf Hab).
  pose proof (getitem_present f (a, b) Hp) as Hg. cbn [fst snd] in Hg.
  rewrite Hg. fold (pair_data f (a, b)).
  by destruct (pair_data_arrays f (a, b)) as [-> ->].
Qed.

(** X4: on a dataset with distinct column labels, for two different columns
    A and B, the loop body computes both statistics of the pair (A, B) from
    the arrays [xs], [ys] of its finite cases, and both statistics of the
    pair (B, A) from the same two arrays in the other order, [ys], [xs]:
    the pair (B, A) is cleaned to the rows of (A, B) with the two entries
    of every row exchanged. *)
Theorem swapped_pair_uses_same_rows `{SciPyStats} df t a b f h :
  h !! df = Some (OFrame f) -> NoDup (columns f) ->
  a <> b -> present f (a, b) ->
  process_pair df t (a, b) h =
  (let* pcc := lift (pearsonr (map fst (finite_cases f (a, b)))
                              (map snd (finite_cases f (a, b)))) in
   let* src := lift (spearmanr (map fst (finite_cases f (a, b)))
                               (map snd (finite_cases f (a, b)))) in
   collect_results t (a, b) src pcc)
    (h ++ [OFrame (selection f (a, b)); OFrame (pair_data f (a, b))]) /\
  process_pair df t (b, a) h =
  (let* pcc := lift (pearsonr (map snd (finite_cases f (a, b)))
                              (map fst (finite_cases f (a, b)))) in
   let* src := lift (spearmanr (map snd (finite_cases f (a, b)))
                               (map fst (finite_cases f (a, b)))) in
   collect_results t (b, a) src pcc)
    (h ++ [OFrame (selection f (b, a)); OFrame (pair_data f (b, a))]) /\
  values (pair_data f (b, a))
  = map (fun r => [snd r; fst r]) (finite_cases f (a, b)).
Proof.
  intros Hdf _ Hab [Ha Hb].
  split; [by apply process_pair_finite_cases|].
  assert (Hsw : map fst (finite_cases f (b, a)) = map snd (finite_cases f (a, b))
                /\ map snd (finite_cases f (b, a))
                   = map fst (finite_cases f (a, b))).
  { rewrite finite_cases_swap, !map_map. split; by apply map_ext. }
  destruct Hsw as [Hfst Hsnd]. split.
  - rewrite <- Hfst, <- Hsnd. by apply process_pair_finite_cases.
  - unfold pair_data. rewrite clean_values.
    rewrite finite_cases_swap, map_map.
    unfold finite_cases, complete_cases, paired, selection. simpl values.
    rewrite filter_filter, !filter_map, map_map. cbn [fst snd].
    erewrite filter_ext; [reflexivity|].
    intros row. simpl. unfold finite.
    destruct (isna (at_label (columns f) row b)),
             (isna (at_label (columns f) row a)),
             (isinf (at_label (columns f) row b)),
             (isinf (at_label (columns f) row a)); reflexivity.
Qed.

Lemma swapped_pair_uses_same_rows_witness :
  @process_pair (stub_stats (mkStat 1 0) (mkStat 1 0)) 0 10 ("B", "A")
    (fresh_table [OFrame gappy_df])
  = (let* pcc := lift (@pearsonr (stub_stats (mkStat 1 0) (mkStat 1 0))
                         [2; 8]%float [1; 4]%float) in
     let* src := lift (@spearmanr (stub_stats (mkStat 1 0) (mkStat 1 0))
                         [2; 8]%float [1; 4]%float) in
     @collect_results (stub_stats (mkStat 1 0) (mkStat 1 0))
       10 ("B", "A") src pcc)
      (fresh_table [OFrame gappy_df]
         ++ [OFrame (selection gappy_df ("B", "A"));
             OFrame (pair_data gappy_df ("B", "A"))]) /\
  values (pair_data gappy_df ("B", "A")) = [[2; 1]; [8; 4]]%float.
Proof.
  destruct (@swapped_pair_uses_same_rows (stub_stats (mkStat 1 0) (mkStat 1 0))
              0 10 "A" "B" gappy_df (fresh_table [OFrame gappy_df]))
    as (_ & Hswap & Hvalues).
  - reflexivity.
  - compute_done.
  - discriminate.
  - split; reflexivity.
  - split; [exact Hswap|exact Hvalues].
Defined.

(** X5: the cleaning of lines 36-40 gives the frame that replacing the
    infinite values and dropping the missing ones gives without the first
    [dropna] of line 36, and cleaning a cleaned frame changes nothing. *)
Theorem cleaning_composes f :
  clean f = dropna (replace_inf f) /\ clean (clean f) = clean f.
Proof.
  split.
  - apply frame_eq; [done|]. rewrite clean_values. simpl.
    by rewrite dropna_replace_values.
  - apply frame_eq; [done|]. rewrite !clean_values, filter_filter.
    apply filter_ext. intros row. by destruct (forallb finite row).
Qed.

(** * plot_correlations: lemmas *)

Lemma plot_bind_ok {A B} (m : Plot A) (k : A -> Plot B) fig a fig' :
  m fig = (Ok a, fig') -> plot_bind m k fig = k a fig'.
Proof. unfold plot_bind. by intros ->. Qed.

Lemma plot_lift_ok {A B} (a : A) (k : A -> Plot B) fig :
  plot_bind (plot_lift (Ok a)) k fig = k a fig.
Proof. reflexivity. Qed.

Lemma plot_lift_raise {A B} e (k : A -> Plot B) fig :
  plot_bind (plot_lift (Raise e)) k fig = (Raise e, fig).
Proof. reflexivity. Qed.

Lemma plot_ret_bind {A B} (a : A) (k : A -> Plot B) fig :
  plot_bind (plot_ret a) k fig = k a fig.
Proof. reflexivity. Qed.

Lemma on_axes_bind {B} ax g (k : unit -> Plot B) fig :
  plot_bind (on_axes ax g) k fig
  = k tt (mkFigure (figsize fig) (suptitle fig) (alter g ax (axes fig))
            (tight fig)).
Proof. reflexivity. Qed.

Section PlotLemmas.
Context `{PlotLibs}.

(** The loop body either raises before it draws, or puts its drawing on
    its axes and touches nothing else. *)
Lemma plot_pair_eq data ax row fig :
  plot_pair data (ax, row) fig =
  match drawing data row with
  | Raise e => (Raise e, fig)
  | Ok d => (Ok tt, mkFigure (figsize fig) (suptitle fig)
                      (alter (apply_drawing row d) ax (axes fig)) (tight fig))
  end.
Proof.
  unfold plot_pair, drawing. cbn [fst snd].
  destruct (getitem data _) as [sel|e];
    [rewrite plot_lift_ok|by rewrite plot_lift_raise].
  destruct (linregress _ _) as [reg|e];
    [rewrite plot_lift_ok|by rewrite plot_lift_raise].
  destruct (py_min _) as [lo|e];
    [rewrite plot_lift_ok|by rewrite plot_lift_raise].
  destruct (py_max _) as [hi|e];
    [rewrite plot_lift_ok|by rewrite plot_lift_raise].
  destruct (getitem_column data (fst row)) as [x|e];
    [rewrite plot_lift_ok|by rewrite plot_lift_raise].
  destruct (getitem_column data (snd row)) as [y|e];
    [rewrite plot_lift_ok|by rewrite plot_lift_raise].
  unfold ax_scatter, ax_plot, ax_set_xlabel, ax_set_ylabel.
  rewrite !on_axes_bind, plot_lift_ok. cbn [figsize suptitle axes tight].
  unfold apply_drawing. cbn [drawn_scatter drawn_line log_x log_y].
  destruct (PrimFloat.ltb 40 (kurtosis (series_dropna x)));
    [unfold ax_set_xscale; rewrite on_axes_bind|rewrite plot_ret_bind];
    rewrite plot_lift_ok;
    (destruct (PrimFloat.ltb 40 (kurtosis (series_dropna y)));
     [unfold ax_set_yscale, on_axes|unfold plot_ret]);
    cbn [figsize suptitle axes tight]; do 2 f_equal;
    rewrite ?list_alter_alter_eq; apply list_alter_ext; done.
Qed.

(** The loop over the axes and the rows: it draws the first [m] rows, each
    on its own axes, and stops at the end of the shorter list or at the
    first row that raises. *)
Lemma plot_loop data rows : forall s n fig r fig',
  plot_for_each (zip (seq s n) rows) (plot_pair data) fig = (r, fig') ->
  exists m,
    m <= n /\ m <= length rows /\
    (r = Ok tt -> m = Nat.min n (length rows)) /\
    (forall e, r = Raise e ->
       exists row, m < n /\ rows !! m = Some row /\ drawing data row = Raise e) /\
    (forall i row, i < m -> rows !! i = Some row ->
       exists d, drawing data row = Ok d /\
                 axes fig' !! (s + i) = apply_drawing row d <$> axes fig !! (s + i)) /\
    (forall j, j < s \/ s + m <= j -> axes fig' !! j = axes fig !! j) /\
    figsize fig' = figsize fig /\ suptitle fig' = suptitle fig /\
    tight fig' = tight fig /\ length (axes fig') = length (axes fig).
Proof.
  induction rows as [|row rows IH]; intros s n fig r fig' Hrun.
  - assert (zip (seq s n) (@nil (string * string)) = []) as Hz
      by by destruct (seq s n).
    rewrite Hz in Hrun. injection Hrun as <- <-.
    exists 0. split; [lia|]. split; [simpl; lia|].
    split; [intros _; simpl; lia|]. split; [done|].
    split; [intros i row Hi; lia|]. done.
  - destruct n as [|n].
    { injection Hrun as <- <-.
      exists 0. split; [lia|]. split; [simpl; lia|].
      split; [done|]. split; [done|].
      split; [intros i row' Hi; lia|]. done. }
    simpl in Hrun. unfold plot_bind in Hrun. rewrite plot_pair_eq in Hrun.
    destruct (drawing data row) as [d|e] eqn:Hd.
    2: { injection Hrun as <- <-.
         exists 0. split; [lia|]. split; [simpl; lia|].
         split; [done|].
         split; [intros e' [= <-]; exists row; split; [lia|done]|].
         split; [intros i row' Hi; lia|]. done. }
    apply IH in Hrun
      as (m & Hmn & Hml & Hok & Herr & Hdrawn & Hrest & Hsz & Hti & Htg & Hlen).
    cbn [axes figsize suptitle tight] in *. rewrite length_alter in Hlen.
    exists (S m). split; [lia|]. split; [simpl; lia|]. split; [|split; [|split; [|split]]].
    + intros Hr. rewrite (Hok Hr). done.
    + intros e' He. destruct (Herr e' He) as (row' & Hlt & Hrow' & Hraise).
      exists row'. split; [lia|]. split; done.
    + intros [|i] row' Hi Hrow'.
      * injection Hrow' as <-. exists d. split; [done|].
        rewrite Nat.add_0_r, Hrest by lia. apply list_lookup_alter_eq.
      * simpl in Hrow'. destruct (Hdrawn i row') as (d' & Hd' & Hax); [lia|done|].
        exists d'. split; [done|].
        replace (s + S i) with (S s + i) by lia. rewrite Hax.
        by rewrite list_lookup_alter_ne by lia.
    + intros j Hj. rewrite Hrest by lia.
      apply list_lookup_alter_ne. lia.
    + done.
Qed.

Lemma plot_correlations_eq data rows :
  plot_correlations data rows =
  match plot_for_each (zip (seq 0 15) rows) (plot_pair data)
          (mkFigure (11, 7) (Some "Feature cross-correlations")
             (replicate 15 new_axes) false) with
  | (Ok _, fig) =>
      (Ok tt, mkFigure (figsize fig) (suptitle fig) (axes fig) true)
  | (Raise e, fig) => (Raise e, fig)
  end.
Proof.
  unfold plot_correlations, plot_bind, fig_suptitle, fig_tight_layout, subplots.
  cbn [figsize suptitle axes tight Nat.mul Nat.add].
  by destruct (plot_for_each _ _ _) as [[[]|e] fig].
Qed.

(** The arrays of the regression: the complete cases of the pair. *)
Lemma dropna_selection_arrays data row :
  iloc (dropna (selection data row)) 0 = map fst (complete_cases data row) /\
  iloc (dropna (selection data row)) 1 = map snd (complete_cases data row).
Proof.
  unfold iloc, dropna, selection, complete_cases, paired. simpl.
  rewrite !filter_map, !map_map. simpl.
  split; (erewrite filter_ext; [reflexivity|]); intros r; simpl;
    by rewrite andb_true_r.
Qed.

Lemma getitem_column_present data row :
  present data row ->
  getitem_column data (fst row) = Ok (map fst (paired data row)) /\
  getitem_column data (snd row) = Ok (map snd (paired data row)).
Proof.
  intros [Ha Hb]. unfold getitem_column, paired. rewrite Ha, Hb, !map_map.
  done.
Qed.

(** A drawing that is computed, spelled out. *)
Lemma drawing_ok data row d :
  drawing data row = Ok d ->
  present data row /\
  exists reg lo hi,
    linregress (map fst (complete_cases data row))
               (map snd (complete_cases data row)) = Ok reg /\
    py_min (map fst (complete_cases data row)) = Ok lo /\
    py_max (map fst (complete_cases data row)) = Ok hi /\
    d = mkDrawing
          (mkScatter (map fst (paired data row)) (map snd (paired data row))
             0x1.999999999999ap-3%float "black")
          (mkLine (linspace lo hi)
             (map (fun x => slope reg * x + intercept reg)%float
                  (linspace lo hi)) "red")
          (PrimFloat.ltb 40 (kurtosis (series_dropna (map fst (paired data row)))))
          (PrimFloat.ltb 40 (kurtosis (series_dropna (map snd (paired data row))))).
Proof.
  unfold drawing. destruct (decide (present data row)) as [Hp|Hp].
  2: { by rewrite (getitem_not_present data row Hp). }
  rewrite (getitem_present data row Hp).
  destruct (dropna_selection_arrays data row) as [-> ->].
  destruct (getitem_column_present data row Hp) as [-> ->].
  destruct (linregress _ _) as [reg|]; [|done].
  destruct (py_min _) as [lo|]; [|done].
  destruct (py_max _) as [hi|]; [|done].
  intros [= <-]. split; [done|]. by exists reg, lo, hi.
Qed.

End PlotLemmas.

(** * plot_correlations: properties *)

(** X6: the figure has fifteen axes and the loop stops with the shorter of
    the axes and the rows, so only the first fifteen rows of
    [correlations_df] are read: the call on the rows is the call on their
    first fifteen, whatever the later rows hold. *)
Theorem only_fifteen_rows_plotted `{PlotLibs} data rows :
  plot_correlations data rows = plot_correlations data (take 15 rows).
Proof.
  rewrite !plot_correlations_eq.
  pose proof (zip_with_take_r pair (seq 0 15) rows) as Hz.
  rewrite length_seq in Hz. by rewrite Hz.
Qed.

(** X7: when the call returns, the figure has its title, the tight layout
    and fifteen axes.  The axes of the [i]-th row holds one scatter of the
    two columns as they are in the dataset (missing and infinite values
    included), one red line through the points that [linspace] gives
    between the least and the greatest first entry of the complete cases,
    with the slope and intercept that [linregress] gives on the complete
    cases, the two feature names as labels, and a log scale on an axis
    exactly when the kurtosis of that column without its missing values is
    greater than 40.  The axes past the last row are as new. *)
Theorem plotted_figure `{PlotLibs} data rows fig :
  plot_correlations data rows = (Ok tt, fig) ->
  figsize fig = (11, 7) /\
  suptitle fig = Some "Feature cross-correlations" /\
  tight fig = true /\
  length (axes fig) = 15 /\
  (forall i row, i < 15 -> rows !! i = Some row ->
     present data row /\
     exists reg lo hi,
       linregress (map fst (complete_cases data row))
                  (map snd (complete_cases data row)) = Ok reg /\
       py_min (map fst (complete_cases data row)) = Ok lo /\
       py_max (map fst (complete_cases data row)) = Ok hi /\
       axes fig !! i =
       Some (mkAxes
               [mkScatter (map fst (paired data row)) (map snd (paired data row))
                  0x1.999999999999ap-3%float "black"]
               [mkLine (linspace lo hi)
                  (map (fun x => slope reg * x + intercept reg)%float
                       (linspace lo hi)) "red"]
               (fst row) (snd row)
               (if PrimFloat.ltb 40
                     (kurtosis (series_dropna (map fst (paired data row))))
                then Log else Linear)
               (if PrimFloat.ltb 40
                     (kurtosis (series_dropna (map snd (paired data row))))
                then Log else Linear))) /\
  (forall i, length rows <= i -> i < 15 -> axes fig !! i = Some new_axes).
Proof.
  rewrite plot_correlations_eq.
  destruct (plot_for_each _ _ _) as [[[]|e] fig0] eqn:Hloop; [|done].
  intros [= <-]. cbn [figsize suptitle axes tight].
  apply plot_loop in Hloop
    as (m & _ & _ & Hok & _ & Hdrawn & Hrest & Hsz & Hti & _ & Hlen).
  specialize (Hok eq_refl). cbn [figsize suptitle axes tight] in *.
  rewrite length_replicate in Hlen.
  do 4 (split; [done|]). split.
  - intros i row Hi Hrow.
    assert (Him : i < m).
    { apply lookup_lt_Some in Hrow. lia. }
    destruct (Hdrawn i row Him Hrow) as (d & Hd & Hax).
    destruct (drawing_ok data row d Hd) as (Hp & reg & lo & hi & Hreg & Hlo & Hhi & ->).
    split; [done|]. exists reg, lo, hi. do 3 (split; [done|]).
    change (0 + i) with i in Hax.
    rewrite Hax, lookup_replicate_2 by done. reflexivity.
  - intros i Hi Hi15. rewrite Hrest by lia. by apply lookup_replicate_2.
Qed.

Lemma plotted_figure_witness :
  exists fig,
    @plot_correlations (stub_plot (mkRegression 2 0) 41) linear_df
      [("X", "Y"); ("Y", "X")] = (Ok tt, fig) /\
    length (axes fig) = 15 /\
    axes fig !! 2 = Some new_axes.
Proof.
  destruct (@plot_correlations (stub_plot (mkRegression 2 0) 41) linear_df
              [("X", "Y"); ("Y", "X")]) as [r fig] eqn:Hrun.
  assert (Hr : r = Ok tt).
  { pose proof Hrun as Hrun'. vm_compute in Hrun'. congruence. }
  subst r. exists fig. split; [reflexivity|].
  destruct (@plotted_figure _ _ _ _ Hrun) as (_ & _ & _ & Hlen & _ & Hnew).
  split; [exact Hlen|]. apply Hnew; simpl; lia.
Defined.



(** X9: a row among the first fifteen whose two columns have no complete
    case makes the call raise, whatever the libraries answer: if no earlier
    step raises, [min] of the empty column does. *)
Theorem no_complete_case_fails `{PlotLibs} data rows i row :
  i < 15 -> rows !! i = Some row -> complete_cases data row = [] ->
  exists e fig, plot_correlations data rows = (Raise e, fig).
Proof.
  intros Hi Hrow Hcc. rewrite plot_correlations_eq.
  destruct (plot_for_each _ _ _) as [[[]|e] fig0] eqn:Hloop; [|by eexists _, _].
  apply plot_loop in Hloop as (m & _ & _ & Hok & _ & Hdrawn & _).
  specialize (Hok eq_refl).
  assert (Him : i < m).
  { apply lookup_lt_Some in Hrow. lia. }
  destruct (Hdrawn i row Him Hrow) as (d & Hd & _).
  destruct (drawing_ok data row d Hd) as (_ & reg & lo & hi & _ & Hlo & _).
  rewrite Hcc in Hlo. discriminate Hlo.
Qed.

Lemma no_complete_case_fails_witness :
  exists e fig,
    @plot_correlations (stub_plot (mkRegression 2 0) 41) disjoint_df
      [("A", "B")] = (Raise e, fig).
Proof.
  apply (@no_complete_case_fails (stub_plot (mkRegression 2 0) 41)
           disjoint_df [("A", "B")] 0 ("A", "B")).
  - lia.
  - reflexivity.
  - reflexivity.
Defined.
